(** * c3nav editor: ChangeSet / Change (c3nav/editor/models.py)

    A shallow embedding of the change-log engine of the c3nav editor:
    the [Change] and [ChangeSet] models, the validation of a Change
    ([Change.clean]), its persistence ([Change.save]), the folding of a
    log into the overlay projection ([ChangeSet.parse_changes]) and the
    resolution of the active ChangeSet of a request
    ([ChangeSet.get_for_request]).

    Python objects are mutable and exceptions leave what was mutated
    before them in place, so effectful methods are functions of a state
    that return either a value or an exception, both with the state. *)

From stdpp Require Import gmap strings list fin_maps pretty sorting.

#[local] Open Scope Z_scope.
#[local] Set Warnings "-register-all".

(** ** Exceptions *)

(** The exceptions the module raises or lets through.  [ObjectDoesNotExist]
    is django.core.exceptions.ObjectDoesNotExist (every Model.DoesNotExist),
    [LookupError] is what apps.get_model raises for an unknown model, and a
    json.JSONDecodeError is a [ValueError]. *)
Inductive exn :=
| ValidationError (msg : string)
| TypeError (msg : string)
| ValueError (msg : string)
| AttributeError (msg : string)
| NotImplementedError
| ObjectDoesNotExist
| LookupError.

Inductive outcome (S A : Type) :=
| Ok (a : A) (s : S)
| Raise (e : exn) (s : S).
Arguments Ok {S A} a s.
Arguments Raise {S A} e s.

(** The state a call ends in, whether it returned or raised. *)
Definition final {S A} (o : outcome S A) : S :=
  match o with Ok _ s => s | Raise _ s => s end.

Definition is_Ok {S A} (o : outcome S A) : bool :=
  match o with Ok _ _ => true | Raise _ _ => false end.

(** The value a call returned, or the exception it raised. *)
Definition returned {S A} (o : outcome S A) : option A :=
  match o with Ok a _ => Some a | Raise _ _ => None end.

Definition raised {S A} (o : outcome S A) : option exn :=
  match o with Ok _ _ => None | Raise e _ => Some e end.

Definition M (S A : Type) : Type := S → outcome S A.

Definition run_bind {S A B} (f : A → M S B) (m : M S A) : M S B :=
  λ s, match m s with
       | Ok a s' => f a s'
       | Raise e s' => Raise e s'
       end.

#[global] Instance M_ret S : MRet (M S) := λ A a s, Ok a s.
#[global] Instance M_bind S : MBind (M S) := λ A B f m, run_bind f m.

Definition raise {S A} (e : exn) : M S A := λ s, Raise e s.
Definition gets {S A} (f : S → A) : M S A := λ s, Ok (f s) s.
Definition modify {S} (f : S → S) : M S unit := λ s, Ok tt (f s).

(** A pure computation that may raise, run inside a stateful one. *)
Definition lift {S A} (r : exn + A) : M S A :=
  match r with inl e => raise e | inr a => mret a end.

(** [try: m except h]: the handler [h] sees the exception and either
    replaces it ([Some e']) or lets it propagate ([None]). *)
Definition try_except {S A} (m : M S A) (h : exn → option exn) : M S A :=
  λ s, match m s with
       | Ok a s' => Ok a s'
       | Raise e s' => Raise (default e (h e)) s'
       end.

(** [for x in l: body x] *)
Fixpoint for_each {S A} (l : list A) (body : A → M S unit) : M S unit :=
  match l with
  | [] => mret tt
  | x :: l' => body x ≫= λ _, for_each l' body
  end.

(** ** Python values the module handles *)

(** A primary key as the editor sees it: the [int] of a persisted object
    or the [str] of a pending creation. *)
Abbreviation pkval := (Z + string)%type (only parsing).

(** str(n) and '%d' % n for an int. *)
Definition str (n : Z) : string := pretty n.

Inductive User := AnonymousUser | AuthUser (id : Z).

Definition is_authenticated (u : User) : bool :=
  match u with AuthUser _ => true | AnonymousUser => false end.

Definition user_id (u : User) : option Z :=
  match u with AuthUser i => Some i | AnonymousUser => None end.

(** A Python class, by the attributes the module reads:
    [__name__], [issubclass(value, models.Model)], [_meta.abstract] and
    [_meta.app_label]. *)
Record PyClass := {
  __name__ : string;
  is_model : bool;
  abstract : bool;
  app_label : string
}.

#[global] Instance PyClass_eq_dec : EqDecision PyClass.
Proof. solve_decision. Defined.

#[global] Instance PyClass_countable : Countable PyClass.
Proof.
  refine (inj_countable'
    (λ c, (__name__ c, is_model c, abstract c, app_label c))
    (λ t, let '(n, m, a, l) := t in
          {| __name__ := n; is_model := m; abstract := a; app_label := l |}) _).
  by intros [].
Defined.

(** What the module calls of Django, Python and the json module. *)
Class Library := {
  (** the Python value a JSON text decodes to *)
  JSON : Type;
  (** apps.get_model('mapdata', name); [None] is LookupError *)
  get_model : string → option PyClass;
  (** json.loads on a str; [None] is json.JSONDecodeError *)
  json_loads : string → option JSON;
  (** json.dumps(value, ensure_ascii=False) *)
  json_dumps : JSON → string;
  (** int(s), also the coercion of a str given as pk; [None] is ValueError *)
  int_of_str : string → option Z
}.

(** updated_values: model class -> object pk -> field name -> value. *)
Abbreviation UpdatedValues :=
  (gmap (option PyClass) (gmap (option pkval) (gmap (option string) JSON)))
  (only parsing).

(** deleted_existing: model class -> set of pks. *)
Abbreviation DeletedExisting := (gmap (option PyClass) (gset Z)) (only parsing).

(** An instance of a model of the canonical store. *)
Record Instance := {
  inst_class : PyClass;
  inst_pk : option Z
}.

(** Modelled from the spec: c3nav/editor/wrappers.py (ModelInstanceWrapper)
    is not part of the sources.  The wrapper layer is a facade over a
    canonical entity held by a ChangeSet: the module reads its [_changeset],
    [_obj] and [pk], and [add_create] assigns its [pk]. *)
Record ModelInstanceWrapper := {
  _changeset_id : option Z;
  _obj : Instance;
  w_pk : option pkval;
  w_author : option User
}.

Definition set_w_pk (v : option pkval) (w : ModelInstanceWrapper) :=
  {| _changeset_id := _changeset_id w; _obj := _obj w; w_pk := v;
     w_author := w_author w |}.

(** ** The Change model *)

(** A Change object in memory.  The related objects [deletes_change] and
    [created_object] are Changes themselves; [_set_object] is the target
    cached by the [obj] property (not a database field). *)
Inductive Change := mkChange {
  pk : option Z;
  changeset_id : option Z;
  author : option Z;
  created : option Z;
  action : string;
  deletes_change : option Change;
  model_name : option string;
  existing_object_pk : option Z;
  created_object : option Change;
  field_name : option string;
  field_value : option string;
  _set_object : option ModelInstanceWrapper
}.

(** Change(changeset=cs): every nullable field is None, the CharField
    [action] is the empty string, and [__init__] clears [_set_object]. *)
Definition new_Change (cs_pk : option Z) : Change :=
  mkChange None cs_pk None None "" None None None None None None None.

Definition set_pk v c :=
  mkChange v (changeset_id c) (author c) (created c) (action c)
    (deletes_change c) (model_name c) (existing_object_pk c)
    (created_object c) (field_name c) (field_value c) (_set_object c).
Definition set_changeset_id v c :=
  mkChange (pk c) v (author c) (created c) (action c)
    (deletes_change c) (model_name c) (existing_object_pk c)
    (created_object c) (field_name c) (field_value c) (_set_object c).
Definition set_author v c :=
  mkChange (pk c) (changeset_id c) v (created c) (action c)
    (deletes_change c) (model_name c) (existing_object_pk c)
    (created_object c) (field_name c) (field_value c) (_set_object c).
Definition set_created v c :=
  mkChange (pk c) (changeset_id c) (author c) v (action c)
    (deletes_change c) (model_name c) (existing_object_pk c)
    (created_object c) (field_name c) (field_value c) (_set_object c).
Definition set_action v c :=
  mkChange (pk c) (changeset_id c) (author c) (created c) v
    (deletes_change c) (model_name c) (existing_object_pk c)
    (created_object c) (field_name c) (field_value c) (_set_object c).
Definition set_deletes_change v c :=
  mkChange (pk c) (changeset_id c) (author c) (created c) (action c)
    v (model_name c) (existing_object_pk c)
    (created_object c) (field_name c) (field_value c) (_set_object c).
Definition set_model_name v c :=
  mkChange (pk c) (changeset_id c) (author c) (created c) (action c)
    (deletes_change c) v (existing_object_pk c)
    (created_object c) (field_name c) (field_value c) (_set_object c).
Definition set_existing_object_pk v c :=
  mkChange (pk c) (changeset_id c) (author c) (created c) (action c)
    (deletes_change c) (model_name c) v
    (created_object c) (field_name c) (field_value c) (_set_object c).
Definition set_created_object v c :=
  mkChange (pk c) (changeset_id c) (author c) (created c) (action c)
    (deletes_change c) (model_name c) (existing_object_pk c)
    v (field_name c) (field_value c) (_set_object c).
Definition set_field_name v c :=
  mkChange (pk c) (changeset_id c) (author c) (created c) (action c)
    (deletes_change c) (model_name c) (existing_object_pk c)
    (created_object c) v (field_value c) (_set_object c).
Definition set_field_value v c :=
  mkChange (pk c) (changeset_id c) (author c) (created c) (action c)
    (deletes_change c) (model_name c) (existing_object_pk c)
    (created_object c) (field_name c) v (_set_object c).
Definition set__set_object v c :=
  mkChange (pk c) (changeset_id c) (author c) (created c) (action c)
    (deletes_change c) (model_name c) (existing_object_pk c)
    (created_object c) (field_name c) (field_value c) v.

(** A Change as a query returns it: [__init__] has run, so no target is
    cached. *)
Definition from_db (c : Change) : Change := set__set_object None c.

(** Meta.ordering = ['created', 'pk'] *)
Definition log_key (c : Change) : Z * Z := (default 0 (created c), default 0 (pk c)).

Definition log_le (c1 c2 : Change) : Prop :=
  (log_key c1).1 < (log_key c2).1 ∨
  ((log_key c1).1 = (log_key c2).1 ∧ (log_key c1).2 ≤ (log_key c2).2).

#[global] Instance log_le_dec c1 c2 : Decision (log_le c1 c2).
Proof. unfold log_le. apply _. Defined.

(** The ACTIONS choices. *)
Definition ACTIONS : list string :=
  ["delchange"; "create"; "delete"; "update"; "m2m_add"; "m2m_remove"].

Section Models.
Context `{Library}.

(** *** Change.model_class (getter) *)
Definition model_class (c : Change) : exn + option PyClass :=
  match model_name c with
  | None => inr None
  | Some n =>
      match get_model n with
      | Some m => inr (Some m)
      | None => inl LookupError
      end
  end.

(** str of an attribute that may be None. *)
Definition str_opt (o : option Z) : string :=
  match o with Some n => str n | None => "None" end.

(** *** Change.obj_pk *)
Definition obj_pk (c : Change) : exn + option pkval :=
  match _set_object c with
  | Some w => inr (w_pk w)
  | None =>
      match existing_object_pk c with
      | Some k => inr (Some (inl k))
      | None =>
          match created_object c with
          | Some co => inr (Some (inr ("c" +:+ str_opt (changeset_id co))))
          | None =>
              inl (TypeError "existing_model_pk or created_object have to be set.")
          end
      end
  end.

(** ** The ChangeSet model *)

(** The database fields of a ChangeSet. *)
Record ChangeSetRow := {
  cs_pk : option Z;
  cs_created : option Z;
  cs_author : option Z;
  proposed : option Z;
  applied : option Z;
  applied_by : option Z
}.

(** A ChangeSet object in memory: its row, the attributes [__init__]
    adds, and the result of prefetch_related('changes') when the object
    came from [qs_base]. *)
Record ChangeSet := {
  row :> ChangeSetRow;
  default_author : option User;
  parsed : bool;
  updated_values : UpdatedValues;
  deleted_existing : DeletedExisting;
  prefetched_changes : option (list Change)
}.

(** ChangeSet.__init__ *)
Definition init_ChangeSet (r : ChangeSetRow) (pre : option (list Change)) : ChangeSet :=
  {| row := r; default_author := None; parsed := false;
     updated_values := ∅; deleted_existing := ∅; prefetched_changes := pre |}.

Definition set_updated_values (v : UpdatedValues) (cs : ChangeSet) : ChangeSet :=
  {| row := row cs; default_author := default_author cs; parsed := parsed cs;
     updated_values := v; deleted_existing := deleted_existing cs;
     prefetched_changes := prefetched_changes cs |}.

Definition set_deleted_existing (v : DeletedExisting) (cs : ChangeSet) : ChangeSet :=
  {| row := row cs; default_author := default_author cs; parsed := parsed cs;
     updated_values := updated_values cs; deleted_existing := v;
     prefetched_changes := prefetched_changes cs |}.

Definition set_default_author (v : option User) (cs : ChangeSet) : ChangeSet :=
  {| row := row cs; default_author := v; parsed := parsed cs;
     updated_values := updated_values cs; deleted_existing := deleted_existing cs;
     prefetched_changes := prefetched_changes cs |}.

Definition set_row (r : ChangeSetRow) (cs : ChangeSet) : ChangeSet :=
  {| row := r; default_author := default_author cs; parsed := parsed cs;
     updated_values := updated_values cs; deleted_existing := deleted_existing cs;
     prefetched_changes := prefetched_changes cs |}.

(** ** The state of a call *)

(** [this] is the Change a Change method runs on ([self]); [changeset] is
    the ChangeSet object it belongs to ([self.changeset], and [self] of a
    ChangeSet method); [db_changes] is the table of persisted Changes and
    [store] the canonical store, as the (model, pk) pairs it holds. *)
Record World := {
  this : Change;
  changeset : ChangeSet;
  db_changes : list Change;
  store : gset (PyClass * Z)
}.

Definition set_this (c : Change) (w : World) : World :=
  {| this := c; changeset := changeset w; db_changes := db_changes w; store := store w |}.
Definition set_changeset (cs : ChangeSet) (w : World) : World :=
  {| this := this w; changeset := cs; db_changes := db_changes w; store := store w |}.
Definition set_db_changes (l : list Change) (w : World) : World :=
  {| this := this w; changeset := changeset w; db_changes := l; store := store w |}.

Definition update_this (f : Change → Change) : M World unit :=
  modify (λ w, set_this (f (this w)) w).
Definition update_changeset (f : ChangeSet → ChangeSet) : M World unit :=
  modify (λ w, set_changeset (f (changeset w)) w).

(** Change.objects.filter(changeset=k): the Changes of a ChangeSet, in
    Meta.ordering. *)
Definition changes_of (db : list Change) (k : option Z) : list Change :=
  from_db <$> merge_sort log_le (filter (λ c, changeset_id c = k) db).

(** self.changes.all(): the prefetched log if there is one, else a query. *)
Definition changes_all (w : World) : list Change :=
  match prefetched_changes (changeset w) with
  | Some l => l
  | None => changes_of (db_changes w) (cs_pk (changeset w))
  end.

(** ** Folding the log into the overlay projection *)

(** dict.setdefault(k, d), for its effect on the dict. *)
Definition setdefault `{Countable K} {A} (k : K) (d : A) (m : gmap K A) : gmap K A :=
  match m !! k with
  | Some _ => m
  | None => <[k := d]> m
  end.

(** json.loads(change.field_value): TypeError on None. *)
Definition loads (v : option string) : exn + JSON :=
  match v with
  | None => inl (TypeError "the JSON object must be str, bytes or bytearray, not NoneType")
  | Some s =>
      match json_loads s with
      | Some j => inr j
      | None => inl (ValueError "JSONDecodeError")
      end
  end.

(** *** ChangeSet._parse_change

    The chained setdefault calls are evaluated left to right, each after
    its key: an exception from [obj_pk] or [json.loads] leaves the dicts
    created so far in place. *)
Definition _parse_change (change : Change) : M World unit :=
  if decide (action change = "update") then
    mc ← lift (model_class change);
    update_changeset (λ cs,
      set_updated_values (setdefault mc ∅ (updated_values cs)) cs);;
    k ← lift (obj_pk change);
    update_changeset (λ cs,
      set_updated_values (alter (setdefault k ∅) mc (updated_values cs)) cs);;
    v ← lift (loads (field_value change));
    update_changeset (λ cs,
      set_updated_values
        (alter (alter (insert (field_name change) v) k) mc (updated_values cs)) cs)
  else if decide (action change = "delete") then
    match existing_object_pk change with
    | Some k =>
        mc ← lift (model_class change);
        update_changeset (λ cs,
          set_deleted_existing (setdefault mc ∅ (deleted_existing cs)) cs);;
        update_changeset (λ cs,
          set_deleted_existing (alter (λ s, {[k]} ∪ s) mc (deleted_existing cs)) cs)
    | None => mret tt
    end
  else mret tt.

(** *** ChangeSet.parse_changes

    Nothing in the module ever sets [parsed], so every call folds the log
    again. *)
Definition parse_changes : M World unit :=
  cs ← gets changeset;
  if parsed cs then mret tt
  else
    l ← gets changes_all;
    for_each l _parse_change.
(** ** Wrapping (ChangeSet.wrap) *)

(** What [wrap] is given: a model name, a class, a model instance, or
    anything else. *)
Inductive PyObj :=
| PStr (s : string)
| PClass (c : PyClass)
| PInstance (i : Instance)
| POther.

(** Modelled from the spec: c3nav/editor/wrappers.py (ModelWrapper) is not
    part of the sources; the facade over an entity class. *)
Record ModelWrapper := {
  mw_changeset_id : option Z;
  mw_class : PyClass;
  mw_author : option User
}.

Inductive Wrapped :=
| WModel (m : ModelWrapper)
| WInstance (i : ModelInstanceWrapper).

(** The head of [wrap]: parse, then settle the author. *)
Definition wrap_author (author : option User) : M World (option User) :=
  parse_changes;;
  cs ← gets changeset;
  let author := match author with None => default_author cs | Some a => Some a end in
  mret (match author with
        | Some u => if is_authenticated u then Some u else None
        | None => None
        end).

(** The pk of a wrapped instance: the int pk of the instance, if saved. *)
Definition int_pk (o : option Z) : option pkval :=
  match o with Some k => Some (inl k) | None => None end.

(** wrap(obj) for [isinstance(obj, models.Model)]:
    ModelInstanceWrapper(self, obj, author), whose pk is that of [obj]. *)
Definition wrap_instance (i : Instance) (author : option User) : M World ModelInstanceWrapper :=
  a ← wrap_author author;
  cs ← gets changeset;
  mret {| _changeset_id := cs_pk (row cs); _obj := i; w_pk := int_pk (inst_pk i); w_author := a |}.

Definition wrap (obj : PyObj) (author : option User) : M World Wrapped :=
  match obj with
  | PStr s =>
      a ← wrap_author author;
      cs ← gets changeset;
      match get_model s with
      | Some m => mret (WModel {| mw_changeset_id := cs_pk (row cs); mw_class := m; mw_author := a |})
      | None => raise LookupError
      end
  | PClass c =>
      a ← wrap_author author;
      cs ← gets changeset;
      if is_model c
      then mret (WModel {| mw_changeset_id := cs_pk (row cs); mw_class := c; mw_author := a |})
      else raise (ValueError "")
  | PInstance i => w ← wrap_instance i author; mret (WInstance w)
  | POther => wrap_author author;; raise (ValueError "")
  end.

(** ** Change: target and validation *)

(** model_class.objects.get(pk=k) on the canonical store. *)
Definition objects_get (mc : option PyClass) (k : Z) : M World Instance :=
  match mc with
  | None => raise (AttributeError "'NoneType' object has no attribute 'objects'")
  | Some m =>
      st ← gets store;
      if decide ((m, k) ∈ st)
      then mret {| inst_class := m; inst_pk := Some k |}
      else raise ObjectDoesNotExist
  end.

(** *** Change.obj (getter) *)
Definition obj : M World ModelInstanceWrapper :=
  c ← gets this;
  match _set_object c with
  | Some w => mret w
  | None =>
      match existing_object_pk c with
      | Some k =>
          match created_object c with
          | Some _ =>
              raise (TypeError "existing_object_pk and created_object can not both be set.")
          | None =>
              mc ← lift (model_class c);
              i ← objects_get mc k;
              w ← wrap_instance i None;
              update_this (set__set_object (Some w));;
              mret w
          end
      | None =>
          match created_object c with
          | Some co =>
              mco ← lift (model_class co);
              mc ← lift (model_class c);
              if decide (mco ≠ mc)
              then raise (TypeError "created_object model and change model do not match.")
              else if decide (changeset_id co ≠ changeset_id c)
              then raise (TypeError "created_object belongs to a different changeset.")
              else raise NotImplementedError
          | None =>
              raise (TypeError "existing_model_pk or created_object have to be set.")
          end
      end
  end.

(** *** Change.model_class (setter) *)
Definition set_model_class (value : option PyClass) : M World unit :=
  match value with
  | None => update_this (set_model_name None)
  | Some v =>
      if negb (is_model v) then raise (ValueError "value is not a django model")
      else if abstract v then raise (ValueError "value is an abstract model")
      else if decide (app_label v ≠ "mapdata")
      then raise (ValueError "value is not a mapdata model")
      else update_this (set_model_name (Some (__name__ v)))
  end.

(** s[1:] *)
Definition tail_str (s : string) : string :=
  match s with
  | EmptyString => EmptyString
  | String _ r => r
  end.

(** Change.objects.get(pk=s) for a str [s]: the pk is coerced with int. *)
Definition Change_objects_get (s : string) : M World Change :=
  match int_of_str s with
  | None => raise (ValueError "invalid literal for int()")
  | Some n =>
      db ← gets db_changes;
      match List.find (λ c, bool_decide (pk c = Some n)) db with
      | Some c => mret (from_db c)
      | None => raise ObjectDoesNotExist
      end
  end.

(** What the [obj] setter is given. *)
Inductive ObjValue :=
| VInstance (i : Instance)
| VWrapper (w : ModelInstanceWrapper).

(** *** Change.obj (setter)

    [set_obj_wrapped] is the setter from its second statement on, once
    [value] is a ModelInstanceWrapper.  [created_object_id] is the pk of [created_object]: the assignment of
    int(value.pk[1:]) to it, after the object of that pk was fetched,
    changes nothing, but the int conversion is still evaluated. *)
Definition set_obj_wrapped (value : ModelInstanceWrapper) : M World unit :=
  match w_pk value with
  | Some (inr s) =>
      cs ← gets changeset;
      if decide (_changeset_id value ≠ cs_pk (row cs))
      then raise (ValueError "value is a Change instance but belongs to a different changeset.")
      else
        set_model_class (Some (inst_class (_obj value)));;
        co ← Change_objects_get (tail_str s);
        update_this (set_created_object (Some co));;
        match int_of_str (tail_str s) with
        | None => raise (ValueError "invalid literal for int()")
        | Some _ =>
            update_this (set_existing_object_pk None);;
            update_this (set__set_object (Some value))
        end
  | other =>
      c ← gets this;
      model_class_before ← lift (model_class c);
      set_model_class (Some (inst_class (_obj value)));;
      match other with
      | Some (inl k) =>
          update_this (set_existing_object_pk (Some k));;
          update_this (set_created_object None);;
          update_this (set__set_object (Some value))
      | _ =>
          set_model_class model_class_before;;
          raise (ValueError "object is not saved yet and cannot be referenced")
      end
  end.

Definition set_obj (value : ObjValue) : M World unit :=
  value ← match value with
          | VWrapper w => mret w
          | VInstance i => wrap_instance i None
          end;
  set_obj_wrapped value.

(** for field_name in names: if getattr(self, field_name) is not None:
    raise ValidationError('%s ...' % field_name) *)
Definition must_not_be_set (fields : list (string * bool)) (suffix : string) : M World unit :=
  for_each fields (λ f,
    if f.2 then raise (ValidationError (f.1 +:+ suffix)) else mret tt).

Definition is_set {A} (o : option A) : bool :=
  match o with Some _ => true | None => false end.

(** The except clauses of [clean]. *)
Definition clean_handler (e : exn) : option exn :=
  match e with
  | TypeError msg => Some (ValidationError msg)
  | ObjectDoesNotExist => Some (ValidationError "existing object does not exist.")
  | _ => None
  end.

(** The body of the try statement of [clean]:
    tmp = self.model_class if self.action == 'create' else self.obj *)
Definition resolve_target : M World unit :=
  c ← gets this;
  if decide (action c = "create")
  then lift (model_class c);; mret tt
  else obj;; mret tt.

(** *** Change.clean *)
Definition clean : M World unit :=
  c ← gets this;
  if decide (action c = "delchange") then
    match deletes_change c with
    | None => raise (ValidationError "deletes_change has to be set if action is delchange.")
    | Some d =>
        if decide (changeset_id d ≠ changeset_id c)
        then raise (ValidationError "deletes_change refers to a change from a different changeset.")
        else
          must_not_be_set
            [("model_name", is_set (model_name c));
             ("existing_object_pk", is_set (existing_object_pk c));
             ("created_object", is_set (created_object c));
             ("field_name", is_set (field_name c));
             ("field_value", is_set (field_value c))]
            " must not be set if action is delchange."
    end
  else
    match deletes_change c with
    | Some _ => raise (ValidationError "deletes_change can only be set if action is delchange.")
    | None =>
        match model_name c with
        | None => raise (ValidationError "model_name has to be set if action is not delchange.")
        | Some _ =>
            try_except resolve_target clean_handler;;
            c ← gets this;
            if decide (action c = "create" ∨ action c = "delete") then
              must_not_be_set
                [("field_name", is_set (field_name c));
                 ("field_value", is_set (field_value c))]
                " must not be set if action is create or delete."
            else mret tt
        end
    end.

(** super().save(): the row is inserted; the database assigns the next
    pk and auto_now_add sets [created]. *)
Definition next_pk (db : list Change) : Z :=
  1 + foldr (λ c m, Z.max (default 0 (pk c)) m) 0 db.

Definition Model_save (now : Z) : M World unit :=
  db ← gets db_changes;
  update_this (λ c, set_created (Some now) (set_pk (Some (next_pk db)) c));;
  c ← gets this;
  modify (λ w, set_db_changes (db_changes w ++ [c]) w).

(** *** Change.save *)
Definition save (now : Z) : M World unit :=
  clean;;
  c ← gets this;
  if is_set (pk c) then raise (TypeError "change objects can not be edited.")
  else
    cs ← gets changeset;
    if is_set (proposed (row cs)) || is_set (applied (row cs))
    then raise (TypeError "can not add change object to uneditable changeset.")
    else Model_save now.

(** *** Change.delete *)
Definition delete : M World unit :=
  raise (TypeError "change objects can not be deleted directly.").

(** ** Appending to a ChangeSet *)

(** The keyword arguments of [_new_change]. *)
Inductive Attr :=
| a_action (v : string)
| a_model_class (v : option PyClass)
| a_obj (v : ObjValue)
| a_field_name (v : option string)
| a_field_value (v : option string)
| a_deletes_change (v : option Change).

Definition setattr (a : Attr) : M World unit :=
  match a with
  | a_action v => update_this (set_action v)
  | a_model_class v => set_model_class v
  | a_obj v => set_obj v
  | a_field_name v => update_this (set_field_name v)
  | a_field_value v => update_this (set_field_value v)
  | a_deletes_change v => update_this (set_deletes_change v)
  end.

(** *** ChangeSet._new_change *)
Definition _new_change (now : Z) (author : option User) (kwargs : list Attr) : M World Change :=
  parse_changes;;
  cs ← gets changeset;
  modify (set_this (new_Change (cs_pk (row cs))));;
  let author := match author with None => default_author cs | Some a => Some a end in
  match author with
  | Some u => if is_authenticated u then update_this (set_author (user_id u)) else mret tt
  | None => mret tt
  end;;
  for_each kwargs setattr;;
  save now;;
  change ← gets this;
  _parse_change change;;
  mret change.

(** *** ChangeSet.add_create: returns [obj] with the pk it was given. *)
Definition add_create (now : Z) (obj : ModelInstanceWrapper) (author : option User)
  : M World ModelInstanceWrapper :=
  change ← _new_change now author
    [a_action "create"; a_model_class (Some (inst_class (_obj obj)))];
  match pk change with
  | Some n => mret (set_w_pk (Some (inr ("c" +:+ str n))) obj)
  | None => raise (TypeError "%d format: a number is required, not NoneType")
  end.

(** *** ChangeSet._add_value *)
Definition _add_value (now : Z) (action : string) (obj : ObjValue) (name : string)
    (value : JSON) (author : option User) : M World Change :=
  _new_change now author
    [a_action action; a_obj obj; a_field_name (Some name);
     a_field_value (Some (json_dumps value))].

Definition add_update now obj name value author :=
  _add_value now "update" obj name value author.
Definition add_m2m_add now obj name value author :=
  _add_value now "m2m_add" obj name value author.
Definition add_m2m_remove now obj name value author :=
  _add_value now "m2m_remove" obj name value author.

(** *** ChangeSet.add_delete *)
Definition add_delete (now : Z) (obj : ObjValue) (author : option User) : M World Change :=
  _new_change now author [a_action "delete"; a_obj obj].

(** ** Resolving the ChangeSet of a request *)

(** request.user; the session and the tables are in [Site]. *)
Record Site := {
  db_changesets : list ChangeSetRow;
  site_changes : list Change;
  session_changeset_pk : option Z
}.

(** A queryset is evaluated against the table when it is used. *)
Definition QuerySet : Type := list ChangeSetRow → list ChangeSetRow.

(** *** ChangeSet.qs_base *)
Definition qs_base (hide_applied : bool) : QuerySet :=
  λ t, if hide_applied
       then filter (λ r, applied r = None) t
       else t.

(** *** ChangeSet.qs_for_request *)
Definition qs_for_request (user : User) : QuerySet :=
  λ t, if is_authenticated user
       then filter (λ r, cs_author r = None ∨ cs_author r = user_id user) (qs_base true t)
       else filter (λ r, cs_author r = None) (qs_base true t).

(** order_by('-created'): rows of equal [created] stay in table order. *)
Definition created_ge (r1 r2 : ChangeSetRow) : Prop :=
  default 0 (cs_created r2) ≤ default 0 (cs_created r1).

#[global] Instance created_ge_dec r1 r2 : Decision (created_ge r1 r2).
Proof. unfold created_ge. apply _. Defined.

Definition order_by_created_desc (l : list ChangeSetRow) : list ChangeSetRow :=
  merge_sort created_ge l.

(** The object a queryset of [qs_base] yields for a row: [__init__] has
    run and the Changes are prefetched. *)
Definition fetched (st : Site) (r : ChangeSetRow) : ChangeSet :=
  init_ChangeSet r (Some (changes_of (site_changes st) (cs_pk r))).

Definition set_cs_author (a : option Z) (r : ChangeSetRow) : ChangeSetRow :=
  {| cs_pk := cs_pk r; cs_created := cs_created r; cs_author := a;
     proposed := proposed r; applied := applied r; applied_by := applied_by r |}.

(** Model.save() of a persisted ChangeSet: its row is replaced. *)
Definition update_row (r : ChangeSetRow) (t : list ChangeSetRow) : list ChangeSetRow :=
  (λ r', if decide (cs_pk r' = cs_pk r) then r else r') <$> t.

Definition next_cs_pk (t : list ChangeSetRow) : Z :=
  1 + foldr (λ r m, Z.max (default 0 (cs_pk r)) m) 0 t.

(** How [get_for_request] came to its result. *)
Inductive Resolution := FromSession | Resumed | Fresh.

(** The tail of [get_for_request], after the session reference gave
    nothing. *)
Definition resume_or_create (now : Z) (user : User) (st : Site)
  : Resolution * ChangeSet * Site :=
  let qs := qs_for_request user in
  let candidate :=
    if is_authenticated user
    then head (order_by_created_desc
                 (filter (λ r, cs_author r = user_id user) (qs (db_changesets st))))
    else None in
  match candidate with
  | Some r =>
      (Resumed,
       set_default_author (Some user) (fetched st r),
       {| db_changesets := db_changesets st; site_changes := site_changes st;
          session_changeset_pk := cs_pk r |})
  | None =>
      let r := {| cs_pk := Some (next_cs_pk (db_changesets st));
                  cs_created := Some now;
                  cs_author := if is_authenticated user then user_id user else None;
                  proposed := None; applied := None; applied_by := None |} in
      (Fresh,
       set_default_author (Some user) (init_ChangeSet r None),
       {| db_changesets := db_changesets st ++ [r]; site_changes := site_changes st;
          session_changeset_pk := cs_pk r |})
  end.

(** *** ChangeSet.get_for_request *)
Definition get_for_request (now : Z) (user : User) (st : Site)
  : Resolution * ChangeSet * Site :=
  let qs := qs_for_request user in
  match session_changeset_pk st with
  | Some k =>
      match head (filter (λ r, cs_pk r = Some k) (qs (db_changesets st))) with
      | Some r =>
          if bool_decide (cs_author r = None) && is_authenticated user
          then
            let r' := set_cs_author (user_id user) r in
            (FromSession,
             set_default_author (Some user) (set_row r' (fetched st r)),
             {| db_changesets := update_row r' (db_changesets st);
                site_changes := site_changes st;
                session_changeset_pk := session_changeset_pk st |})
          else
            (FromSession, set_default_author (Some user) (fetched st r), st)
      | None => resume_or_create now user st
      end
  | None => resume_or_create now user st
  end.

End Models.

(** ** The overlay projection as data *)

Section Overlay.
Context `{Library}.

(** updated_values[model][pk][field], when every level is there. *)
Definition get_value (uv : UpdatedValues) (mc : option PyClass) (k : option pkval)
    (f : option string) : option JSON :=
  uv !! mc ≫= λ d, d !! k ≫= λ d', d' !! f.

(** What a folded update does to updated_values, in one step. *)
Definition write (mc : option PyClass) (k : option pkval) (f : option string) (v : JSON)
    (uv : UpdatedValues) : UpdatedValues :=
  <[mc := <[k := <[f := v]> (default ∅ (default ∅ (uv !! mc) !! k))]>
            (default ∅ (uv !! mc))]> uv.

(** What a folded delete of a persisted object does to deleted_existing. *)
Definition mark_deleted (mc : option PyClass) (k : Z) (de : DeletedExisting)
    : DeletedExisting :=
  <[mc := {[k]} ∪ default ∅ (de !! mc)]> de.


(** The log a call of [parse_changes] folds. *)
Definition fold_log (l : list Change) : M World unit := for_each l _parse_change.

(** Dicts of dicts merged key by key, the left one first. *)
Definition mmerge `{Countable K} {A} (f : A → A → A) (m1 m2 : gmap K A) : gmap K A :=
  union_with (λ a b, Some (f a b)) m1 m2.

Definition merge_uv (d uv : UpdatedValues) : UpdatedValues :=
  mmerge (mmerge (∪)) d uv.

Definition merge_de (d de : DeletedExisting) : DeletedExisting :=
  mmerge (∪) d de.

(** A projection laid over the one a ChangeSet holds. *)
Definition overlay (d : UpdatedValues * DeletedExisting) (cs : ChangeSet) : ChangeSet :=
  set_deleted_existing (merge_de d.2 (deleted_existing cs))
    (set_updated_values (merge_uv d.1 (updated_values cs)) cs).

(** The projection of one Change alone, when it folds without error. *)
Definition delta (c : Change) : option (UpdatedValues * DeletedExisting) :=
  if decide (action c = "update") then
    match model_class c, obj_pk c, loads (field_value c) with
    | inr mc, inr k, inr v => Some ({[mc := {[k := {[field_name c := v]}]}]}, ∅)
    | _, _, _ => None
    end
  else if decide (action c = "delete") then
    match existing_object_pk c with
    | Some k =>
        match model_class c with
        | inr mc => Some (∅, {[mc := {[k]}]})
        | inl _ => None
        end
    | None => Some (∅, ∅)
    end
  else Some (∅, ∅).

(** The projection of a log, later Changes over earlier ones. *)
Fixpoint deltas (l : list Change) : option (UpdatedValues * DeletedExisting) :=
  match l with
  | [] => Some (∅, ∅)
  | c :: l' =>
      match delta c, deltas l' with
      | Some d, Some d' => Some (merge_uv d'.1 d.1, merge_de d'.2 d.2)
      | _, _ => None
      end
  end.

(** ** Predicates the properties are stated with *)

(** Between two states: the table of Changes, the canonical store and the
    row of the ChangeSet are the same, and the Change the call runs on
    differs at most in its cached target. *)
Definition stable (w w' : World) : Prop :=
  db_changes w' = db_changes w ∧ store w' = store w ∧
  from_db (this w') = from_db (this w) ∧
  row (changeset w') = row (changeset w).

Definition keeps {A} (m : M World A) : Prop := ∀ w, stable w (final (m w)).

(** The Changes the validation rules name. *)
Definition delchange_with_fields (c : Change) : Prop :=
  action c = "delchange" ∧
  (model_name c ≠ None ∨ existing_object_pk c ≠ None ∨ created_object c ≠ None ∨
   field_name c ≠ None ∨ field_value c ≠ None).

Definition delchange_across_changesets (c : Change) : Prop :=
  action c = "delchange" ∧
  ∃ d, deletes_change c = Some d ∧ changeset_id d ≠ changeset_id c.

Definition create_or_delete_with_field (c : Change) : Prop :=
  (action c = "create" ∨ action c = "delete") ∧
  (field_name c ≠ None ∨ field_value c ≠ None).

(** The row the session reference of a request leads to, if any. *)
Definition session_row (user : User) (st : Site) : option ChangeSetRow :=
  match session_changeset_pk st with
  | Some k =>
      head (filter (λ r, cs_pk r = Some k) (qs_for_request user (db_changesets st)))
  | None => None
  end.

(** The ChangeSets [get_for_request] may resume for a user: his own, not
    yet applied. *)
Definition resumable (uid : Z) (st : Site) : list ChangeSetRow :=
  filter (λ r, cs_author r = Some uid ∧ applied r = None) (db_changesets st).

End Overlay.

(** ** Frames: what a call leaves as it is *)

Section Frames.
Context `{Library}.

(** A call that, from every state, ends in a state related to it. *)
Definition preserves (R : World → World → Prop) {A} (m : M World A) : Prop :=
  ∀ w, R w (final (m w)).

(** The tables are the same. *)
Definition same_tables (w w' : World) : Prop :=
  db_changes w' = db_changes w ∧ store w' = store w.

(** The ChangeSet object differs at most in its overlay projection. *)
Definition same_changeset (w w' : World) : Prop :=
  row (changeset w') = row (changeset w) ∧
  default_author (changeset w') = default_author (changeset w) ∧
  parsed (changeset w') = parsed (changeset w) ∧
  prefetched_changes (changeset w') = prefetched_changes (changeset w).

(** The Change differs at most in its target: model name, the two
    references and the cached object. *)
Definition same_but_target (w w' : World) : Prop :=
  pk (this w') = pk (this w) ∧ changeset_id (this w') = changeset_id (this w) ∧
  author (this w') = author (this w) ∧ created (this w') = created (this w) ∧
  action (this w') = action (this w) ∧
  deletes_change (this w') = deletes_change (this w) ∧
  field_name (this w') = field_name (this w) ∧
  field_value (this w') = field_value (this w).

(** All three. *)
Definition frame (w w' : World) : Prop :=
  same_tables w w' ∧ same_changeset w w' ∧ same_but_target w w'.

(** The author a wrapper is given: the one passed or else the default
    author of the ChangeSet, and nobody unless that user is
    authenticated. *)
Definition wrapper_author (by_user : option User) (w : World) : option User :=
  match match by_user with None => default_author (changeset w) | Some a => Some a end with
  | Some u => if is_authenticated u then Some u else None
  | None => None
  end.

(** The Change [_new_change] starts from, once the log is parsed:
    Change(changeset=self) with changeset_id and, for an authenticated
    author, the author set. *)
Definition start_change (author : option User) (w : World) : World :=
  let c0 := new_Change (cs_pk (changeset w)) in
  let author := match author with None => default_author (changeset w) | Some a => Some a end in
  set_this
    (match author with
     | Some u => if is_authenticated u then set_author (user_id u) c0 else c0
     | None => c0
     end) w.

End Frames.

(** * The grid (c3nav/mapdata/grid.py) *)

(** The exceptions of the grid module: the ValueError of [Grid.__init__]
    and of float(), and the IndexError of indexing
    string.ascii_uppercase. *)
Inductive grid_exn :=
| GridValueError (msg : string)
| GridIndexError (msg : string).

(** string.ascii_uppercase, letter by letter. *)
Definition ascii_uppercase : list string :=
  ["A"; "B"; "C"; "D"; "E"; "F"; "G"; "H"; "I"; "J"; "K"; "L"; "M";
   "N"; "O"; "P"; "Q"; "R"; "S"; "T"; "U"; "V"; "W"; "X"; "Y"; "Z"].

Section Grid.
#[local] Open Scope nat_scope.

(** Coordinates are Python floats.  The module only compares them, with
    [<] (bisect, sorted) and [==] (tuple equality), never computes with
    them; so a coordinate is a value of a type [T] with the order [le] of
    the floats, floats that are [==] being one value.  NaN, which no order
    places, is not a coordinate.  [Raw] is what the constructor is given
    and [to_float] is float(), [None] when it raises. *)
Context {T Raw : Type} (le : relation T) `{!RelDecision le} `{!EqDecision T}.
Context (to_float : Raw → option T).

(** [x < y] *)
Definition float_lt (x y : T) : Prop := ¬ le y x.

(** bisect.bisect(a, x), that is bisect_right with lo = 0, hi = len(a):
    the loop [while lo < hi], which runs at most len(a) times.  [a !! mid]
    is always there, since mid < hi <= len(a). *)
Fixpoint bisect_loop (fuel : nat) (a : list T) (x : T) (lo hi : nat) : nat :=
  match fuel with
  | O => lo
  | S fuel' =>
      if decide (lo < hi) then
        let mid := (lo + hi) `div` 2 in
        match a !! mid with
        | Some y =>
            if decide (float_lt x y)
            then bisect_loop fuel' a x lo mid
            else bisect_loop fuel' a x (mid + 1) hi
        | None => lo
        end
      else lo
  end.

Definition bisect (a : list T) (x : T) : nat :=
  bisect_loop (length a) a x 0 (length a).

(** sorted(l): the ascending list with the elements of [l]. *)
Definition sorted (l : list T) : list T := merge_sort le l.

Record Grid := {
  rows : list T;
  cols : list T;
  invert_x : bool;
  invert_y : bool
}.

(** tuple(float(y) for y in values) *)
Fixpoint floats (values : list Raw) : grid_exn + list T :=
  match values with
  | [] => inr []
  | v :: values' =>
      match to_float v with
      | None => inl (GridValueError "could not convert string to float")
      | Some x =>
          match floats values' with
          | inl e => inl e
          | inr l => inr (x :: l)
          end
      end
  end.

(** The if/elif/else of [__init__] for one axis: not inverted, inverted,
    or ValueError. *)
Definition orientation (given : list T) (msg : string) : grid_exn + bool :=
  if decide (sorted given = given) then inr false
  else if decide (sorted given = reverse given) then inr true
  else inl (GridValueError msg).

(** *** Grid.__init__, once the coordinates are floats *)
Definition Grid_of_floats (rows cols : list T) : grid_exn + Grid :=
  match orientation rows "row coordinates are not ordered" with
  | inl e => inl e
  | inr iy =>
      match orientation cols "column coordinates are not ordered" with
      | inl e => inl e
      | inr ix =>
          inr {| rows := sorted rows; cols := sorted cols;
                 invert_x := ix; invert_y := iy |}
      end
  end.

(** *** Grid.__init__ *)
Definition Grid_init (rows cols : list Raw) : grid_exn + Grid :=
  match floats rows with
  | inl e => inl e
  | inr r =>
      match floats cols with
      | inl e => inl e
      | inr c => Grid_of_floats r c
      end
  end.

(** [get_cell_for_point] up to its return statement: the column and row
    number of the cell, or None outside the grid. *)
Definition cell_indices (g : Grid) (x y : T) : option (nat * nat) :=
  let xi := bisect (cols g) x in
  if decide (xi ≤ 0 ∨ length (cols g) ≤ xi) then None
  else
    let yi := bisect (rows g) y in
    if decide (yi ≤ 0 ∨ length (rows g) ≤ yi) then None
    else
      let xi := if invert_x g then length (cols g) - xi else xi in
      let yi := if invert_y g then length (rows g) - yi else yi in
      Some (xi, yi).

(** '%s%d' % (string.ascii_uppercase[x-1], y) *)
Definition cell_label (c : nat * nat) : grid_exn + string :=
  match ascii_uppercase !! (c.1 - 1) with
  | Some letter => inr (letter +:+ str (Z.of_nat c.2))
  | None => inl (GridIndexError "string index out of range")
  end.

(** *** Grid.get_cell_for_point *)
Definition get_cell_for_point (g : Grid) (x y : T) : grid_exn + option string :=
  match cell_indices g x y with
  | None => inr None
  | Some c =>
      match cell_label c with
      | inl e => inl e
      | inr s => inr (Some s)
      end
  end.

(** [x] is at or after the first line of an axis and before the last. *)
Definition within (lines : list T) (x : T) : Prop :=
  ∃ first_line last_line,
    head lines = Some first_line ∧ last lines = Some last_line ∧
    le first_line x ∧ float_lt x last_line.

(** [not cell]: None and the empty string are false. *)
Definition falsy (cell : option string) : bool :=
  match cell with
  | None => true
  | Some s => bool_decide (s = "")
  end.

(** The two corners [get_cells_for_bounds] looks up, after the swaps of
    an inverted axis. *)
Definition corners (g : Grid) (bounds : T * T * T * T) : (T * T) * (T * T) :=
  let '(minx, miny, maxx, maxy) := bounds in
  let '(minx, maxx) := if invert_x g then (maxx, minx) else (minx, maxx) in
  let '(miny, maxy) := if invert_y g then (maxy, miny) else (miny, maxy) in
  ((minx, miny), (maxx, maxy)).

(** *** Grid.get_cells_for_bounds *)
Definition get_cells_for_bounds (g : Grid) (bounds : T * T * T * T)
  : grid_exn + option string :=
  let '((minx, miny), (maxx, maxy)) := corners g bounds in
  match get_cell_for_point g minx miny with
  | inl e => inl e
  | inr min_cell =>
      match get_cell_for_point g maxx maxy with
      | inl e => inl e
      | inr max_cell =>
          if falsy min_cell || falsy max_cell then inr None
          else if decide (min_cell = max_cell) then inr min_cell
          else inr (Some (default "" min_cell +:+ "-" +:+ default "" max_cell))
      end
  end.

End Grid.

(** * Migration mapdata 0024: compiled room and area become categories *)

(** The two tables the data migration touches, by the columns it uses.
    The models themselves are not among the sources: the columns are those
    the migration names. *)
Record LocationGroupCategory := {
  lgc_pk : Z;
  lgc_name : string;
  lgc_titles : list (string * string);
  lgc_single : bool;
  lgc_allow_levels : bool;
  lgc_allow_spaces : bool;
  lgc_allow_areas : bool;
  lgc_allow_pois : bool;
  lgc_priority : Z
}.

Record LocationGroup := {
  lg_pk : Z;
  compiled_room : bool;
  compiled_area : bool;
  category : option Z
}.

Record MapData := {
  location_group_categories : list LocationGroupCategory;
  location_groups : list LocationGroup
}.

(** objects.create(...): the row is inserted under the next pk and
    returned. *)
Definition next_category_pk (t : list LocationGroupCategory) : Z :=
  1 + foldr (λ c m, Z.max (lgc_pk c) m) 0 t.

Definition create_category (name : string) (titles : list (string * string))
    (priority : Z) (db : MapData) : LocationGroupCategory * MapData :=
  let c := {| lgc_pk := next_category_pk (location_group_categories db);
              lgc_name := name; lgc_titles := titles; lgc_single := true;
              lgc_allow_levels := false; lgc_allow_spaces := true;
              lgc_allow_areas := true; lgc_allow_pois := false;
              lgc_priority := priority |} in
  (c, {| location_group_categories := location_group_categories db ++ [c];
         location_groups := location_groups db |}).

(** LocationGroup.objects.filter(flag=True).update(category=c) *)
Definition update_category (flag : LocationGroup → bool) (c : LocationGroupCategory)
    (db : MapData) : MapData :=
  {| location_group_categories := location_group_categories db;
     location_groups :=
       (λ g, if flag g
             then {| lg_pk := lg_pk g; compiled_room := compiled_room g;
                     compiled_area := compiled_area g; category := Some (lgc_pk c) |}
             else g) <$> location_groups db |}.

(** *** convert_compiled_room_area_to_location_group_category *)
Definition convert_compiled_room_area_to_location_group_category (db : MapData)
  : MapData :=
  let '(room, db) :=
    create_category "compiled_room"
      [("en", "Compiled room"); ("de", "Zusammengefügter Raum")] 1 db in
  let db := update_category compiled_room room db in
  let '(area, db) :=
    create_category "compiled_area"
      [("en", "Compiled area"); ("de", "Zusammengefügter Bereich")] 2 db in
  update_category compiled_area area db.

(** ** A concrete site, for examples *)

Module Demo.

Definition Area : PyClass :=
  {| __name__ := "Area"; is_model := true; abstract := false; app_label := "mapdata" |}.
Definition POI : PyClass :=
  {| __name__ := "POI"; is_model := true; abstract := false; app_label := "mapdata" |}.

Definition digit_of (a : Ascii.ascii) : option Z :=
  let n := Z.of_N (Ascii.N_of_ascii a) in
  if decide (48 ≤ n ≤ 57) then Some (n - 48) else None.

Fixpoint digits (s : string) (acc : Z) : option Z :=
  match s with
  | EmptyString => Some acc
  | String a r =>
      match digit_of a with
      | Some d => digits r (10 * acc + d)
      | None => None
      end
  end.

(** int(s) on plain decimal literals. *)
Definition parse_int (s : string) : option Z :=
  match s with
  | EmptyString => None
  | String a r =>
      if decide (Ascii.N_of_ascii a = 45%N)
      then match r with
           | EmptyString => None
           | _ => Z.opp <$> digits r 0
           end
      else digits s 0
  end.

(** Two registered models; a JSON value is kept as its text. *)
#[export] Instance lib : Library := {|
  JSON := string;
  get_model := λ n,
    if decide (n = "Area") then Some Area
    else if decide (n = "POI") then Some POI
    else None;
  json_loads := λ s, if decide (s = "") then None else Some s;
  json_dumps := λ j, j;
  int_of_str := parse_int
|}.

(** An open ChangeSet #3 of user 1, not fetched through [qs_base]. *)
Definition row3 : ChangeSetRow :=
  {| cs_pk := Some 3; cs_created := Some 100; cs_author := Some 1;
     proposed := None; applied := None; applied_by := None |}.

Definition proposed3 : ChangeSetRow :=
  {| cs_pk := Some 3; cs_created := Some 100; cs_author := Some 1;
     proposed := Some 150; applied := None; applied_by := None |}.

Definition applied3 : ChangeSetRow :=
  {| cs_pk := Some 3; cs_created := Some 100; cs_author := Some 1;
     proposed := Some 150; applied := Some 160; applied_by := Some 2 |}.

(** The canonical store holds Area 42. *)
Definition world (r : ChangeSetRow) (db : list Change) : World :=
  {| this := new_Change (cs_pk r);
     changeset := init_ChangeSet r None;
     db_changes := db;
     store := {[ (Area, 42) ]} |}.

(** A persisted update of a field of a persisted object. *)
Definition update_row_ (k cs t : Z) (model : string) (target : Z)
    (name value : string) : Change :=
  mkChange (Some k) (Some cs) (Some 1) (Some t) "update" None (Some model)
    (Some target) None (Some name) (Some value) None.

(** A persisted delete-change voiding [target]. *)
Definition delchange_row (k cs t : Z) (target : Change) : Change :=
  mkChange (Some k) (Some cs) (Some 1) (Some t) "delchange" (Some target) None
    None None None None None.

(** A persisted create. *)
Definition create_row (k cs t : Z) (model : string) : Change :=
  mkChange (Some k) (Some cs) (Some 1) (Some t) "create" None (Some model)
    None None None None None.

(** A wrapped persisted Area 42 held by ChangeSet #3. *)
Definition area42 : ModelInstanceWrapper :=
  {| _changeset_id := Some 3; _obj := {| inst_class := Area; inst_pk := Some 42 |};
     w_pk := Some (inl 42); w_author := None |}.

(** The value of a field in an overlay projection. *)
Definition lookup_value (cs : ChangeSet) (m : PyClass) (k : pkval) (f : string)
  : option string :=
  get_value (updated_values cs) (Some m) (Some k) (Some f).

(** Two updates of the level of Area 42, and a delete-change voiding
    the first. *)
Definition set_level_1 : Change := update_row_ 1 3 10 "Area" 42 "level" "1".
Definition set_level_2 : Change := update_row_ 2 3 11 "Area" 42 "level" "2".
Definition void_set_level_1 : Change := delchange_row 2 3 11 set_level_1.

(** A persisted add-relation and a persisted delete of Area 42. *)
Definition add_group : Change :=
  mkChange (Some 3) (Some 3) (Some 1) (Some 12) "m2m_add" None (Some "Area")
    (Some 42) None (Some "groups") (Some "[5]") None.
Definition delete_area : Change :=
  mkChange (Some 4) (Some 3) (Some 1) (Some 13) "delete" None (Some "Area")
    (Some 42) None None None None.

(** A Change with both target references set and a target cached. *)
Definition both_set : Change :=
  mkChange None (Some 3) None None "update" None (Some "Area") (Some 42)
    (Some (create_row 1 3 10 "Area")) (Some "level") (Some "1") (Some area42).

(** A Change of ChangeSet #3 not yet saved. *)
Definition unsaved (action : string) (model : option string) (target : option Z)
    (name value : option string) : Change :=
  mkChange None (Some 3) None None action None model target None name value None.

Definition with_this (c : Change) (w : World) : World := set_this c w.

(** A wrapped POI that is not saved yet, held by ChangeSet #3. *)
Definition new_poi : ModelInstanceWrapper :=
  {| _changeset_id := Some 3; _obj := {| inst_class := POI; inst_pk := None |};
     w_pk := None; w_author := None |}.

(** ChangeSet #3 with six Changes in its log already: a POI is created
    through the ChangeSet, then its level is set. *)
Definition six_changes : list Change :=
  [create_row 1 3 10 "Area"; create_row 2 3 11 "Area"; create_row 3 3 12 "Area";
   create_row 4 3 13 "Area"; create_row 5 3 14 "Area"; create_row 6 3 15 "Area"].

Definition created_poi : outcome World ModelInstanceWrapper :=
  add_create 20 new_poi None (world row3 six_changes).

Definition updated_poi : outcome World Change :=
  match created_poi with
  | Ok poi w => add_update 21 (VWrapper poi) "level" "0" None w
  | Raise e w => Raise e w
  end.

(** The site of user 1: an applied ChangeSet and a later one that is
    proposed but not applied; no session reference. *)
Definition site : Site :=
  {| db_changesets :=
       [ {| cs_pk := Some 1; cs_created := Some 50; cs_author := Some 1;
            proposed := Some 60; applied := Some 70; applied_by := Some 2 |};
         proposed3 ];
     site_changes := [];
     session_changeset_pk := None |}.

(** A valid new update of Area 42. *)
Definition valid_update : Change :=
unsaved "update" (Some "Area") (Some 42) (Some "level") (Some "1").

(** A create with a field name set. *)
Definition create_with_field : Change :=
unsaved "create" (Some "Area") None (Some "level") None.

(** A delete with a field name set whose target is a pending creation of
    the same ChangeSet and model, read back without a cached target. *)
Definition delete_pending_with_field : Change :=
  mkChange None (Some 3) None None "delete" None (Some "Area") None
    (Some (create_row 1 3 10 "Area")) (Some "level") None None.

(** A valid new Change of ChangeSet #3 for each of the ACTIONS. *)
Definition valid_changes : list Change :=
  [ mkChange None (Some 3) None None "delchange" (Some set_level_1) None None None
      None None None;
    unsaved "create" (Some "Area") None None None;
    unsaved "delete" (Some "Area") (Some 42) None None;
    valid_update;
    unsaved "m2m_add" (Some "Area") (Some 42) (Some "groups") (Some "[5]");
    unsaved "m2m_remove" (Some "Area") (Some 42) (Some "groups") (Some "[5]") ].

(** An update of Area 43, which the canonical store does not hold. *)
Definition update_of_missing : Change :=
unsaved "update" (Some "Area") (Some 43) (Some "level") (Some "1").

End Demo.

(** ** Further examples on the concrete site *)

Module Demo2.
Import Demo.

(** A new valid update of Area 42 in the open ChangeSet #3, before and
    after [clean] and [save]. *)
Definition opened : World := with_this valid_update (world row3 []).
Definition cleaned : World := final (clean opened).
Definition saved : World := final (save 30 opened).

(** The persisted Change #1 in its ChangeSet. *)
Definition persisted : World := with_this set_level_1 (world row3 [set_level_1]).

(** A Change whose target Area 42 was assigned through the setter. *)
Definition targeted : World := final (set_obj (VWrapper area42) (world row3 [])).

(** A Change read back from the log that targets a pending creation. *)
Definition pending : World :=
  with_this delete_pending_with_field (world row3 [create_row 1 3 10 "Area"]).

(** A log with an update, a delete and another update, parsed once. *)
Definition logged : World := world row3 [set_level_1; delete_area; set_level_2].
Definition parsed_once : World := final (parse_changes logged).

(** Appending to the open ChangeSet #3 with an empty log. *)
Definition appended_update : outcome World Change :=
  add_update 21 (VWrapper area42) "level" "1" None (world row3 []).
Definition appended_delete : outcome World Change :=
  add_delete 22 (VWrapper area42) None (world row3 []).
Definition appended_by_5 : outcome World Change :=
  _new_change 23 (Some (AuthUser 5)) [a_action "create"; a_model_class (Some Area)]
    (world row3 []).

(** The states these three calls end in. *)
Definition after_update : World := Eval vm_compute in final appended_update.
Definition after_delete : World := Eval vm_compute in final appended_delete.
Definition after_create_by_5 : World := Eval vm_compute in final appended_by_5.

(** The result of resolving the ChangeSet of user 1 on [site]. *)
Definition resolved : Resolution * ChangeSet * Site :=
  get_for_request 200 (AuthUser 1) site.

(** A grid with integer lines: rows given ascending, columns descending. *)
Definition grid_rows : list string := ["0"; "10"; "20"].
Definition grid_cols : list string := ["15"; "10"; "5"; "0"].
Definition demo_grid : Grid :=
  {| rows := [0; 10; 20]; cols := [0; 5; 10; 15];
     invert_x := true; invert_y := false |}.

End Demo2.

(** * Properties *)

(** ** Merging dicts of dicts *)

Section mmerge.
Context `{Countable K} {A : Type} (f : A → A → A).

Lemma lookup_mmerge (m1 m2 : gmap K A) i :
  mmerge f m1 m2 !! i =
    match m1 !! i, m2 !! i with
    | Some a, Some b => Some (f a b)
    | Some a, None => Some a
    | None, o => o
    end.
Proof.
  unfold mmerge. rewrite lookup_union_with.
  by destruct (m1 !! i), (m2 !! i).
Qed.

Lemma mmerge_assoc `{!Assoc (=) f} (m1 m2 m3 : gmap K A) :
  mmerge f m1 (mmerge f m2 m3) = mmerge f (mmerge f m1 m2) m3.
Proof.
  apply map_eq; intros i. rewrite !lookup_mmerge.
  destruct (m1 !! i), (m2 !! i), (m3 !! i); try done.
  by rewrite (assoc f).
Qed.

Lemma mmerge_idemp `{!IdemP (=) f} (m : gmap K A) : mmerge f m m = m.
Proof.
  apply map_eq; intros i. rewrite lookup_mmerge.
  destruct (m !! i); [|done]. by rewrite (idemp f).
Qed.

Lemma mmerge_empty_l (m : gmap K A) : mmerge f ∅ m = m.
Proof. apply map_eq; intros i. by rewrite lookup_mmerge, lookup_empty. Qed.

Lemma mmerge_singleton (i : K) (a : A) (m : gmap K A) :
  mmerge f {[i := a]} m =
    <[i := match m !! i with Some b => f a b | None => a end]> m.
Proof.
  apply map_eq; intros j. rewrite lookup_mmerge.
  destruct (decide (i = j)) as [->|Hne].
  - rewrite lookup_singleton_eq, lookup_insert_eq. by destruct (m !! j).
  - by rewrite lookup_singleton_ne, lookup_insert_ne.
Qed.

End mmerge.

#[global] Instance mmerge_Assoc `{Countable K} {A} (f : A → A → A) `{!Assoc (=) f} :
  Assoc (=) (mmerge (K:=K) f).
Proof. intros m1 m2 m3. by apply mmerge_assoc. Qed.

#[global] Instance mmerge_IdemP `{Countable K} {A} (f : A → A → A) `{!IdemP (=) f} :
  IdemP (=) (mmerge (K:=K) f).
Proof. intros m. by apply mmerge_idemp. Qed.

Section setdefault.
Context `{Countable K} {A : Type}.

Lemma lookup_setdefault (k : K) (d : A) (m : gmap K A) :
  setdefault k d m !! k = Some (default d (m !! k)).
Proof.
  unfold setdefault. destruct (m !! k) eqn:E; simpl.
  - done.
  - by rewrite lookup_insert_eq.
Qed.

Lemma lookup_setdefault_ne (k j : K) (d : A) (m : gmap K A) :
  k ≠ j → setdefault k d m !! j = m !! j.
Proof.
  intros Hne. unfold setdefault. destruct (m !! k); [done|].
  by rewrite lookup_insert_ne.
Qed.

(** d.setdefault(k, default) followed by a mutation of d[k]. *)
Lemma alter_setdefault (g : A → A) (k : K) (d : A) (m : gmap K A) :
  alter g k (setdefault k d m) = <[k := g (default d (m !! k))]> m.
Proof.
  apply map_eq; intros j. destruct (decide (k = j)) as [<-|Hne].
  - by rewrite lookup_alter_eq, lookup_setdefault, lookup_insert_eq.
  - by rewrite lookup_alter_ne, lookup_setdefault_ne, lookup_insert_ne.
Qed.

End setdefault.

Section Proofs.
Context `{Library}.

(** ** One folded Change, in closed form *)

Lemma write_steps (mc : option PyClass) (k : option pkval) (f : option string)
    (v : JSON) (uv : UpdatedValues) :
  alter (alter (insert f v) k) mc (alter (setdefault k ∅) mc (setdefault mc ∅ uv))
  = write mc k f v uv.
Proof.
  rewrite alter_alter_eq. unfold compose.
  rewrite alter_setdefault. unfold write. f_equal.
  apply alter_setdefault.
Qed.

Lemma write_merge (mc : option PyClass) (k : option pkval) (f : option string)
    (v : JSON) (uv : UpdatedValues) :
  merge_uv {[mc := {[k := {[f := v]}]}]} uv = write mc k f v uv.
Proof.
  unfold merge_uv, write. rewrite mmerge_singleton. f_equal.
  destruct (uv !! mc) as [b|]; simpl.
  - rewrite mmerge_singleton. f_equal.
    destruct (b !! k) as [d|]; simpl.
    + by rewrite insert_union_singleton_l.
    + by rewrite insert_empty.
  - by rewrite lookup_empty, !insert_empty.
Qed.

Lemma mark_deleted_steps (mc : option PyClass) (k : Z) (de : DeletedExisting) :
  alter (λ s, {[k]} ∪ s) mc (setdefault mc ∅ de) = mark_deleted mc k de.
Proof. apply alter_setdefault. Qed.

Lemma mark_deleted_merge (mc : option PyClass) (k : Z) (de : DeletedExisting) :
  merge_de {[mc := {[k]}]} de = mark_deleted mc k de.
Proof.
  unfold merge_de, mark_deleted. rewrite mmerge_singleton. f_equal.
  destruct (de !! mc); simpl; [done|]. by rewrite (right_id_L ∅ (∪)).
Qed.

Lemma overlay_empty cs : overlay (∅, ∅) cs = cs.
Proof.
  destruct cs. unfold overlay, merge_uv, merge_de; simpl.
  unfold set_deleted_existing, set_updated_values; simpl.
  by rewrite !mmerge_empty_l.
Qed.

Lemma set_changeset_id_ w : set_changeset (changeset w) w = w.
Proof. by destruct w. Qed.

(** A Change whose model, target and value resolve is folded without
    error, whatever the projection holds, and its effect is its own
    projection laid over it. *)
Lemma parse_change_delta c d w :
  delta c = Some d →
  _parse_change c w = Ok tt (set_changeset (overlay d (changeset w)) w).
Proof.
  unfold delta, _parse_change. intros Hd.
  destruct (decide (action c = "update")).
  - destruct (model_class c) as [?|mc]; [done|].
    destruct (obj_pk c) as [?|k]; [done|].
    destruct (loads (field_value c)) as [?|v]; [done|].
    injection Hd as <-. simpl.
    unfold mbind, M_bind, run_bind, update_changeset, modify, set_changeset; simpl.
    f_equal. f_equal. unfold overlay; simpl.
    unfold set_deleted_existing, set_updated_values; simpl.
    rewrite write_steps, write_merge.
    unfold merge_de. by rewrite mmerge_empty_l.
  - destruct (decide (action c = "delete")).
    + destruct (existing_object_pk c) as [k|].
      * destruct (model_class c) as [?|mc]; [done|].
        injection Hd as <-. simpl.
        unfold mbind, M_bind, run_bind, update_changeset, modify, set_changeset; simpl.
        f_equal. f_equal. unfold overlay; simpl.
        unfold set_deleted_existing, set_updated_values; simpl.
        rewrite mark_deleted_steps, mark_deleted_merge.
        unfold merge_uv. by rewrite mmerge_empty_l.
      * injection Hd as <-. rewrite overlay_empty, set_changeset_id_. done.
    + injection Hd as <-. rewrite overlay_empty, set_changeset_id_. done.
Qed.

(** Otherwise it raises. *)
Lemma parse_change_no_delta c w :
  delta c = None → ∃ e w', _parse_change c w = Raise e w'.
Proof.
  unfold delta, _parse_change. intros Hd.
  destruct (decide (action c = "update")).
  - unfold mbind, M_bind, run_bind, update_changeset, modify; simpl.
    destruct (model_class c) as [?|mc]; simpl; [by eauto|].
    destruct (obj_pk c) as [?|k]; simpl; [by eauto|].
    destruct (loads (field_value c)) as [?|v]; simpl; [by eauto|done].
  - destruct (decide (action c = "delete")); [|done].
    destruct (existing_object_pk c) as [k|]; [|done].
    destruct (model_class c) as [?|mc]; simpl; [by eauto|done].
Qed.

Lemma parse_change_Ok c w w' :
  _parse_change c w = Ok tt w' →
  ∃ d, delta c = Some d ∧ w' = set_changeset (overlay d (changeset w)) w.
Proof.
  intros Hp. destruct (delta c) as [d|] eqn:Hd.
  - exists d. split; [done|]. rewrite (parse_change_delta _ _ _ Hd) in Hp. congruence.
  - destruct (parse_change_no_delta c w Hd) as (e & w'' & He). congruence.
Qed.

(** ** A folded log, in closed form *)

Lemma overlay_overlay d1 d2 cs :
  overlay d2 (overlay d1 cs) = overlay (merge_uv d2.1 d1.1, merge_de d2.2 d1.2) cs.
Proof.
  unfold overlay, set_deleted_existing, set_updated_values; simpl.
  unfold merge_uv, merge_de.
  f_equal; apply (assoc _).
Qed.

Lemma overlay_idemp d cs : overlay d (overlay d cs) = overlay d cs.
Proof.
  rewrite overlay_overlay. unfold overlay, merge_uv, merge_de; simpl.
  by rewrite !(idemp _).
Qed.

Lemma set_changeset_twice cs1 cs2 w :
  set_changeset cs2 (set_changeset cs1 w) = set_changeset cs2 w.
Proof. done. Qed.

Lemma fold_log_cons c l w :
  fold_log (c :: l) w =
    match _parse_change c w with
    | Ok _ w1 => fold_log l w1
    | Raise e w1 => Raise e w1
    end.
Proof. done. Qed.

Lemma fold_log_app l1 l2 w :
  fold_log (l1 ++ l2) w =
    match fold_log l1 w with
    | Ok _ w1 => fold_log l2 w1
    | Raise e w1 => Raise e w1
    end.
Proof.
  revert w. induction l1 as [|c l1 IH]; intros w; [done|].
  simpl. rewrite !fold_log_cons.
  destruct (_parse_change c w); [apply IH|done].
Qed.

Lemma fold_log_deltas l d w :
  deltas l = Some d →
  fold_log l w = Ok tt (set_changeset (overlay d (changeset w)) w).
Proof.
  revert d w. induction l as [|c l IH]; intros d w Hd; simpl in Hd.
  - injection Hd as <-. by rewrite overlay_empty, set_changeset_id_.
  - destruct (delta c) as [d1|] eqn:Hc; [|done].
    destruct (deltas l) as [d2|] eqn:Hl; [|done].
    injection Hd as <-.
    rewrite fold_log_cons, (parse_change_delta _ _ _ Hc), (IH d2 _ eq_refl).
    simpl. by rewrite overlay_overlay.
Qed.

Lemma fold_log_Ok l w w' :
  fold_log l w = Ok tt w' →
  ∃ d, deltas l = Some d ∧ w' = set_changeset (overlay d (changeset w)) w.
Proof.
  revert w. induction l as [|c l IH]; intros w Hf.
  - exists (∅, ∅). split; [done|].
    rewrite overlay_empty, set_changeset_id_.
    unfold fold_log in Hf; simpl in Hf. by injection Hf as <-.
  - rewrite fold_log_cons in Hf.
    destruct (_parse_change c w) as [[] w1|] eqn:Hc; [|done].
    apply parse_change_Ok in Hc as (d1 & Hd1 & ->).
    apply IH in Hf as (d2 & Hd2 & ->).
    eexists. simpl. rewrite Hd1, Hd2. split; [done|].
    by rewrite overlay_overlay.
Qed.

(** ** Reading a folded value back *)

Lemma get_value_write_eq (mc : option PyClass) (k : option pkval) (f : option string)
    (v : JSON) (uv : UpdatedValues) :
  get_value (write mc k f v uv) mc k f = Some v.
Proof.
  unfold get_value, write. rewrite lookup_insert_eq; simpl.
  rewrite lookup_insert_eq; simpl. by rewrite lookup_insert_eq.
Qed.


Lemma parse_change_update c mc k v w :
  action c = "update" → model_class c = inr mc → obj_pk c = inr k →
  loads (field_value c) = inr v →
  _parse_change c w =
    Ok tt (set_changeset
             (set_updated_values
                (write mc k (field_name c) v (updated_values (changeset w)))
                (changeset w)) w).
Proof.
  intros Ha Hm Hk Hv.
  rewrite (parse_change_delta c ({[mc := {[k := {[field_name c := v]}]}]}, ∅)).
  - do 2 f_equal. unfold overlay; simpl. rewrite write_merge.
    unfold merge_de. rewrite mmerge_empty_l. by destruct (changeset w).
  - unfold delta. rewrite decide_True by done. by rewrite Hm, Hk, Hv.
Qed.




End Proofs.

(** ** The overlay projection: folding, rollback, relations *)

Section Folding.
Context `{Library}.

Lemma parse_changes_unparsed w :
  parsed (changeset w) = false →
  parse_changes w = fold_log (changes_all w) w.
Proof.
  intros Hp. unfold parse_changes, mbind, M_bind, run_bind, gets; simpl.
  by rewrite Hp.
Qed.

Lemma parse_change_skips c w :
  action c ≠ "update" → action c ≠ "delete" → _parse_change c w = Ok tt w.
Proof.
  intros Hu Hd. unfold _parse_change. by rewrite !decide_False by done.
Qed.

(** C1 (as amended): a delete-change entry is not folded at all.  Folding it
    leaves the overlay projection as it is, so after an update A that sets a
    field of an object and a delete-change B that voids A, [updated_values]
    still holds the value A wrote for that field. *)
Theorem delchange_leaves_projection A B mc k v w :
  action A = "update" → model_class A = inr mc → obj_pk A = inr k →
  loads (field_value A) = inr v →
  action B = "delchange" → deletes_change B = Some A →
  parsed (changeset w) = false → changes_all w = [A; B] →
  (∀ w0, _parse_change B w0 = Ok tt w0) ∧
  ∃ w', parse_changes w = Ok tt w' ∧
        get_value (updated_values (changeset w')) mc k (field_name A) = Some v.
Proof.
  intros HA Hm Hk Hv HB _ Hp Hl.
  assert (∀ w0, _parse_change B w0 = Ok tt w0) as Hskip.
  { intros w0. apply parse_change_skips; rewrite HB; done. }
  split; [done|].
  rewrite (parse_changes_unparsed _ Hp), Hl, fold_log_cons.
  rewrite (parse_change_update _ _ _ _ _ HA Hm Hk Hv).
  rewrite fold_log_cons, Hskip.
  eexists. split; [done|]. simpl. apply get_value_write_eq.
Qed.

(** C3 (as amended): an add-relation or remove-relation Change (m2m_add,
    m2m_remove) is not folded into the overlay projection: folding it
    succeeds and changes neither [updated_values] nor [deleted_existing];
    of the six actions only update writes to [updated_values]. *)
Theorem m2m_changes_are_not_folded c w :
  action c = "m2m_add" ∨ action c = "m2m_remove" →
  _parse_change c w = Ok tt w.
Proof.
  intros [Ha|Ha]; apply parse_change_skips; rewrite Ha; done.
Qed.


Lemma changes_all_overlay d w :
  changes_all (set_changeset (overlay d (changeset w)) w) = changes_all w.
Proof. done. Qed.

(** C6: building the overlay projection is a function of the ChangeSet and
    its log, and it is idempotent: when [parse_changes] has folded the log,
    a second call folds it again (nothing sets [parsed]) and ends with the
    very same ChangeSet object, [updated_values] and [deleted_existing]
    included. *)
Theorem parse_changes_idempotent w w1 :
  parse_changes w = Ok tt w1 → parse_changes w1 = Ok tt w1.
Proof.
  intros Hp. destruct (parsed (changeset w)) eqn:Hparsed.
  - unfold parse_changes, mbind, M_bind, run_bind, gets in Hp; simpl in Hp.
    rewrite Hparsed in Hp. injection Hp as <-.
    unfold parse_changes, mbind, M_bind, run_bind, gets; simpl.
    by rewrite Hparsed.
  - rewrite (parse_changes_unparsed _ Hparsed) in Hp.
    apply fold_log_Ok in Hp as (d & Hd & ->).
    rewrite parse_changes_unparsed by done.
    rewrite changes_all_overlay, (fold_log_deltas _ _ _ Hd). simpl.
    by rewrite overlay_idemp.
Qed.

(** A log whose Changes all resolve (model, target and JSON value) is
    folded without error: the first call of C6 does return. *)
Lemma deltas_is_Some l :
  (∀ c, c ∈ l → is_Some (delta c)) → is_Some (deltas l).
Proof.
  induction l as [|c l IH]; intros Hl; simpl; [by eexists|].
  destruct (Hl c) as [d ->]; [by left|].
  destruct IH as [d' ->]; [intros c' Hc'; apply Hl; by right|].
  by eexists.
Qed.

Lemma parse_changes_succeeds w :
  (∀ c, c ∈ changes_all w → is_Some (delta c)) →
  ∃ w1, parse_changes w = Ok tt w1.
Proof.
  intros Hl. destruct (parsed (changeset w)) eqn:Hparsed.
  - exists w. unfold parse_changes, mbind, M_bind, run_bind, gets; simpl.
    by rewrite Hparsed.
  - rewrite parse_changes_unparsed by done.
    destruct (deltas_is_Some _ Hl) as [d Hd].
    eexists. by apply fold_log_deltas.
Qed.

End Folding.

(** ** What validation leaves untouched *)

Section Stable.
Context `{Library}.

Lemma stable_refl w : stable w w.
Proof. done. Qed.

Lemma stable_trans w1 w2 w3 : stable w1 w2 → stable w2 w3 → stable w1 w3.
Proof. intros (?&?&?&?) (?&?&?&?). repeat split; congruence. Qed.

Lemma keeps_ret {A} (a : A) : keeps (mret a).
Proof. intros w. apply stable_refl. Qed.

Lemma keeps_raise {A} e : keeps (raise e : M World A).
Proof. intros w. apply stable_refl. Qed.

Lemma keeps_gets {A} (f : World → A) : keeps (gets f).
Proof. intros w. apply stable_refl. Qed.

Lemma keeps_lift {A} (r : exn + A) : keeps (lift r).
Proof. intros w. destruct r; apply stable_refl. Qed.

Lemma keeps_bind {A B} (m : M World A) (f : A → M World B) :
  keeps m → (∀ a, keeps (f a)) → keeps (m ≫= f).
Proof.
  intros Hm Hf w. unfold mbind, M_bind, run_bind.
  specialize (Hm w). destruct (m w) as [a w1|e w1]; simpl in *; [|done].
  eapply stable_trans; [done|apply Hf].
Qed.

Lemma keeps_try_except {A} (m : M World A) h : keeps m → keeps (try_except m h).
Proof.
  intros Hm w. unfold try_except. specialize (Hm w).
  by destruct (m w).
Qed.

Lemma keeps_for_each {A} (l : list A) (body : A → M World unit) :
  (∀ a, keeps (body a)) → keeps (for_each l body).
Proof.
  intros Hb. induction l as [|a l IH]; simpl.
  - apply keeps_ret.
  - apply keeps_bind; [apply Hb|done].
Qed.

Lemma keeps_update_changeset f :
  (∀ cs, row (f cs) = row cs) → keeps (update_changeset f).
Proof. intros Hf w. repeat split; simpl. apply Hf. Qed.

Lemma keeps_set__set_object o : keeps (update_this (set__set_object o)).
Proof. intros w. by repeat split. Qed.

Create HintDb keeps discriminated.

Ltac keeps_step :=
  first
    [ solve [auto with keeps nocore]
    | lazymatch goal with
      | |- keeps (mbind _ _) => apply keeps_bind; [|intros ?]
      | |- keeps (mret _) => apply keeps_ret
      | |- keeps (raise _) => apply keeps_raise
      | |- keeps (gets _) => apply keeps_gets
      | |- keeps (lift _) => apply keeps_lift
      | |- keeps (update_this (set__set_object _)) => apply keeps_set__set_object
      | |- keeps (update_changeset _) =>
          apply keeps_update_changeset; intros ?; reflexivity
      | |- keeps (try_except _ _) => apply keeps_try_except
      | |- keeps (for_each _ _) => apply keeps_for_each; intros ?
      | |- keeps (match ?x with _ => _ end) => destruct x
      end ].

Lemma keeps_parse_change c : keeps (_parse_change c).
Proof. unfold _parse_change. repeat keeps_step. Qed.
Hint Resolve keeps_parse_change : keeps.

Lemma keeps_parse_changes : keeps parse_changes.
Proof. unfold parse_changes. repeat keeps_step. Qed.
Hint Resolve keeps_parse_changes : keeps.

Lemma keeps_wrap_instance i a : keeps (wrap_instance i a).
Proof. unfold wrap_instance, wrap_author. repeat keeps_step. Qed.
Hint Resolve keeps_wrap_instance : keeps.

Lemma keeps_objects_get mc k : keeps (objects_get mc k).
Proof. unfold objects_get. repeat keeps_step. Qed.
Hint Resolve keeps_objects_get : keeps.

Lemma keeps_obj : keeps obj.
Proof. unfold obj. repeat keeps_step. Qed.
Hint Resolve keeps_obj : keeps.

Lemma keeps_resolve_target : keeps resolve_target.
Proof. unfold resolve_target. repeat keeps_step. Qed.
Hint Resolve keeps_resolve_target : keeps.

Lemma keeps_must_not_be_set fields suffix : keeps (must_not_be_set fields suffix).
Proof. unfold must_not_be_set. repeat keeps_step. Qed.
Hint Resolve keeps_must_not_be_set : keeps.

Lemma keeps_clean : keeps clean.
Proof. unfold clean. repeat keeps_step. Qed.

(** The fields of a Change other than its cached target. *)
Lemma from_db_fields c c' :
  from_db c' = from_db c →
  pk c' = pk c ∧ changeset_id c' = changeset_id c ∧ action c' = action c ∧
  deletes_change c' = deletes_change c ∧ model_name c' = model_name c ∧
  existing_object_pk c' = existing_object_pk c ∧
  created_object c' = created_object c ∧
  field_name c' = field_name c ∧ field_value c' = field_value c.
Proof.
  destruct c, c'. unfold from_db, set__set_object; simpl.
  intros [= -> -> -> -> -> -> -> -> -> -> ->]. done.
Qed.

End Stable.

(** ** Saving and validating a Change *)

Section Validation.
Context `{Library}.

Lemma clean_stable w : stable w (final (clean w)).
Proof. apply keeps_clean. Qed.

(** C4 (as amended): saving a Change to a ChangeSet whose [proposed] or
    [applied] timestamp is set always fails and persists nothing, whatever
    the action.  Validation runs first: a Change that [clean] rejects fails
    with that rejection; a new Change that [clean] accepts fails with the
    state error (the TypeError 'can not add change object to uneditable
    changeset.'). *)
Theorem save_to_uneditable_changeset now w :
  proposed (changeset w) ≠ None ∨ applied (changeset w) ≠ None →
  ∃ e w', save now w = Raise e w' ∧ db_changes w' = db_changes w ∧
    (is_Ok (clean w) = true → pk (this w) = None →
     e = TypeError "can not add change object to uneditable changeset.").
Proof.
  intros Hstate. unfold save, mbind, M_bind, run_bind.
  pose proof (clean_stable w) as (Hdb & _ & Hthis & Hrow).
  destruct (clean w) as [[] w1|e w1]; simpl in *.
  - apply from_db_fields in Hthis as (Hpk & _).
    destruct (pk (this w1)) as [n|] eqn:Hn; simpl.
    + eexists _, _. split; [done|]. split; [done|].
      intros _ Hnew. congruence.
    + assert (is_set (proposed (changeset w1)) || is_set (applied (changeset w1)) = true)
        as ->.
      { rewrite Hrow. destruct Hstate as [Hs|Hs].
        - destruct (proposed (changeset w)); [done|by destruct Hs].
        - destruct (applied (changeset w)); [by rewrite orb_true_r|by destruct Hs]. }
      eexists _, _. split; [done|]. split; done.
  - eexists _, _. split; [done|]. split; [done|]. done.
Qed.

(** C9 (as amended): when the target of a Change names a persisted identity
    whose record is not in the canonical store, and the Change is neither a
    create nor a delete-change and has no target cached, validation catches
    the ObjectDoesNotExist of the lookup and fails with the ValidationError
    'existing object does not exist.'; no separate not-found error reaches
    the caller. *)
Theorem clean_missing_object w n m k :
  action (this w) ≠ "delchange" → action (this w) ≠ "create" →
  deletes_change (this w) = None →
  model_name (this w) = Some n → get_model n = Some m →
  _set_object (this w) = None →
  existing_object_pk (this w) = Some k → created_object (this w) = None →
  (m, k) ∉ store w →
  clean w = Raise (ValidationError "existing object does not exist.") w.
Proof.
  intros Hd Hc Hdel Hn Hm Hset Hk Hco Hstore.
  unfold clean, mbind, M_bind, run_bind, gets; simpl.
  rewrite decide_False, Hdel, Hn by done.
  unfold try_except, resolve_target, mbind, M_bind, run_bind, gets; simpl.
  rewrite decide_False by done.
  unfold obj, mbind, M_bind, run_bind, gets; simpl.
  rewrite Hset, Hk, Hco. unfold model_class. rewrite Hn, Hm. simpl.
  unfold objects_get, mbind, M_bind, run_bind, gets; simpl.
  by rewrite decide_False.
Qed.

(** Reading [obj] with both references set and nothing cached. *)
Lemma obj_both_set w k co :
  _set_object (this w) = None →
  existing_object_pk (this w) = Some k → created_object (this w) = Some co →
  obj w = Raise (TypeError "existing_object_pk and created_object can not both be set.") w.
Proof.
  intros Hset Hk Hco. unfold obj, mbind, M_bind, run_bind, gets; simpl.
  by rewrite Hset, Hk, Hco.
Qed.

Lemma must_not_be_set_raises fields suffix w :
  (∃ f, f ∈ fields ∧ f.2 = true) →
  ∃ msg, must_not_be_set fields suffix w = Raise (ValidationError msg) w.
Proof.
  unfold must_not_be_set. induction fields as [|[n b] fields IH].
  - intros (f & Hf & _). by apply elem_of_nil in Hf.
  - intros (f & Hf & Hb). simpl. unfold mbind, M_bind, run_bind.
    destruct b; simpl; [by eexists|].
    apply IH. exists f. split; [|done].
    apply elem_of_cons in Hf as [->|Hf]; [done|done].
Qed.

Lemma is_set_true {A} (o : option A) : o ≠ None → is_set o = true.
Proof. by destruct o. Qed.

(** C5 (as amended): [clean] never accepts a delete-change with a model
    name, a target reference, a field name or a field value set, a
    delete-change whose referenced Change belongs to another ChangeSet, or
    a create or delete with a field name or a field value set.  The two
    delete-change cases are always a ValidationError; a create or delete
    with a field set is a ValidationError unless resolving its model or
    target raised an exception [clean] does not catch, which then
    propagates.  (An update without field name or value is not among the
    rejected Changes.) *)
Theorem clean_rejects w :
  delchange_with_fields (this w) ∨ delchange_across_changesets (this w) ∨
  create_or_delete_with_field (this w) →
  ∃ e w', clean w = Raise e w' ∧
    ((∃ msg, e = ValidationError msg) ∨
     (create_or_delete_with_field (this w) ∧
      ∃ w0, resolve_target w = Raise e w0 ∧ clean_handler e = None)).
Proof.
  intros Hcases.
  assert (action (this w) = "delchange" ∧
          (delchange_with_fields (this w) ∨ delchange_across_changesets (this w))
          ∨ create_or_delete_with_field (this w)) as [[Ha Hdel]|Hcd].
  { destruct Hcases as [Hc|[Hc|Hc]]; [left|left|right]; try done.
    - split; [apply Hc|by left].
    - split; [apply Hc|by right]. }
  - (* delete-change *)
    unfold clean, mbind, M_bind, run_bind, gets; simpl.
    rewrite decide_True by done.
    destruct (deletes_change (this w)) as [d|] eqn:Hd; [|by eexists _, _; eauto].
    destruct (decide (changeset_id d ≠ changeset_id (this w))) as [Hne|Heq];
      [by eexists _, _; eauto|].
    destruct Hdel as [(_ & Hf)|(_ & d' & Hd' & Hne)]; [|by simplify_eq].
    edestruct (must_not_be_set_raises
      [("model_name", is_set (model_name (this w)));
       ("existing_object_pk", is_set (existing_object_pk (this w)));
       ("created_object", is_set (created_object (this w)));
       ("field_name", is_set (field_name (this w)));
       ("field_value", is_set (field_value (this w)))]
      " must not be set if action is delchange." w) as (msg & ->).
    { destruct Hf as [Hf|[Hf|[Hf|[Hf|Hf]]]]; apply is_set_true in Hf;
        eexists (_, _); (split; [|exact Hf]); solve [repeat constructor]. }
    eexists _, _. eauto.
  - (* create or delete *)
    pose proof Hcd as (Hact & Hf).
    assert (action (this w) ≠ "delchange") as Hnd by (destruct Hact as [->| ->]; done).
    unfold clean, mbind, M_bind, run_bind, gets; simpl.
    rewrite decide_False by done.
    destruct (deletes_change (this w)); [by eexists _, _; eauto|].
    destruct (model_name (this w)); [|by eexists _, _; eauto].
    unfold try_except.
    pose proof (keeps_resolve_target w) as (_ & _ & Hthis & _).
    destruct (resolve_target w) as [[] w1|e w1] eqn:Hr; simpl in *.
    + apply from_db_fields in Hthis as (_ & _ & Ha' & _ & _ & _ & _ & Hfn & Hfv).
      rewrite decide_True by (by rewrite Ha').
      edestruct (must_not_be_set_raises
        [("field_name", is_set (field_name (this w1)));
         ("field_value", is_set (field_value (this w1)))]
        " must not be set if action is create or delete." w1) as (msg & ->).
      { rewrite Hfn, Hfv.
        destruct Hf as [Hf|Hf]; apply is_set_true in Hf;
          eexists (_, _); (split; [|exact Hf]); solve [repeat constructor]. }
      eexists _, _. eauto.
    + destruct (clean_handler e) as [e'|] eqn:He; simpl.
      * eexists _, _. split; [done|]. left.
        destruct e; simpl in He; try done; injection He as <-; eauto.
      * eexists _, _. split; [done|]. right. eauto.
Qed.

(** C10 (as amended): after the [obj] setter has returned, exactly one of
    [existing_object_pk] and [created_object] is set: a target with an int
    pk sets [existing_object_pk] to it and clears [created_object]; a
    target with a str pk (a pending creation) sets [created_object] and
    clears [existing_object_pk]; either way the target is cached.  Reading
    [obj] of a Change with both set and no target cached fails with a
    TypeError. *)
Theorem obj_setter_sets_exactly_one value w w' :
  set_obj value w = Ok tt w' →
  (∃ t, _set_object (this w') = Some t ∧
     ((∃ k, w_pk t = Some (inl k) ∧
            existing_object_pk (this w') = Some k ∧ created_object (this w') = None) ∨
      (∃ s co, w_pk t = Some (inr s) ∧
            created_object (this w') = Some co ∧ existing_object_pk (this w') = None)))
  ∧ (∀ w0 k co,
       _set_object (this w0) = None →
       existing_object_pk (this w0) = Some k → created_object (this w0) = Some co →
       ∃ msg, obj w0 = Raise (TypeError msg) w0).
Proof.
  intros Hset. split; [|intros w0 k co ???; eexists; by eapply obj_both_set].
  unfold set_obj, mbind, M_bind, run_bind in Hset.
  match type of Hset with
  | match ?m with _ => _ end = _ => destruct m as [t w1|e w1]; [|done]
  end.
  unfold set_obj_wrapped in Hset.
  unfold mbind, M_bind, run_bind, gets, update_this, modify in Hset.
  destruct (w_pk t) as [[k|s]|] eqn:Hpk; simpl in Hset;
    repeat match type of Hset with
      | match ?m with _ => _ end = _ => destruct m eqn:?; try done; simpl in Hset
      | match ?m with _ => _ end _ = _ => destruct m eqn:?; try done; simpl in Hset
      end;
    injection Hset as <-; simpl; exists t; (split; [done|]).
  - (* a persisted target *) left. by exists k.
  - (* a pending creation *) right. by eexists s, _.
Qed.

End Validation.

(** ** Resolving the ChangeSet of a request *)

Section Resolution.
Context `{Library}.

#[local] Instance created_ge_trans : Transitive created_ge.
Proof. unfold created_ge. intros r1 r2 r3 ??. lia. Qed.

#[local] Instance created_ge_total : Total created_ge.
Proof. unfold created_ge. intros r1 r2. lia. Qed.

Lemma head_order_by_created_desc l r :
  head (order_by_created_desc l) = Some r →
  r ∈ l ∧ ∀ r', r' ∈ l → created_ge r r'.
Proof.
  unfold order_by_created_desc. intros Hh.
  pose proof (StronglySorted_merge_sort created_ge l) as Hs.
  pose proof (merge_sort_Permutation created_ge l) as Hp.
  destruct (merge_sort created_ge l) as [|r0 l'] eqn:Hm; [done|].
  injection Hh as ->.
  split.
  - rewrite <-Hp. by left.
  - intros r' Hr'. rewrite <-Hp in Hr'.
    apply elem_of_cons in Hr' as [->|Hr'].
    + unfold created_ge. lia.
    + apply StronglySorted_inv in Hs as [_ Hall].
      rewrite Forall_forall in Hall. by apply Hall.
Qed.

Lemma head_order_by_created_desc_None l :
  head (order_by_created_desc l) = None → l = [].
Proof.
  unfold order_by_created_desc. intros Hh.
  pose proof (merge_sort_Permutation created_ge l) as Hp.
  destruct (merge_sort created_ge l); [|done].
  by apply Permutation_nil_l in Hp.
Qed.

Lemma elem_of_candidates uid (t : list ChangeSetRow) r :
  r ∈ filter (λ r, cs_author r = Some uid)
        (filter (λ r, cs_author r = None ∨ cs_author r = Some uid)
           (filter (λ r, applied r = None) t))
  ↔ r ∈ filter (λ r, cs_author r = Some uid ∧ applied r = None) t.
Proof. rewrite !list_elem_of_filter. tauto. Qed.

(** C7 (as amended): for an authenticated author whose session reference
    leads to no ChangeSet, [get_for_request] resumes his most recently
    created ChangeSet among those whose [applied] timestamp is unset,
    whether or not it has been proposed, and records it in the session; it
    creates a fresh one only when he has none; it never resumes a ChangeSet
    whose [applied] timestamp is set. *)
Theorem get_for_request_resumes now uid st :
  session_row (AuthUser uid) st = None →
  match get_for_request now (AuthUser uid) st with
  | (Resumed, cs, st') =>
      row cs ∈ resumable uid st ∧ applied cs = None ∧
      (∀ r, r ∈ resumable uid st → created_ge cs r) ∧
      session_changeset_pk st' = cs_pk cs
  | (Fresh, cs, st') =>
      resumable uid st = [] ∧ proposed cs = None ∧ applied cs = None ∧
      db_changesets st' = db_changesets st ++ [row cs]
  | (FromSession, _, _) => False
  end.
Proof.
  intros Hsess.
  assert (get_for_request now (AuthUser uid) st = resume_or_create now (AuthUser uid) st)
    as ->.
  { unfold get_for_request. unfold session_row in Hsess.
    destruct (session_changeset_pk st); [|done]. by rewrite Hsess. }
  unfold resume_or_create, qs_for_request, qs_base, resumable; simpl.
  destruct (head _) as [r|] eqn:Hh; simpl.
  - apply head_order_by_created_desc in Hh as [Hin Hmax].
    rewrite elem_of_candidates in Hin.
    split; [done|]. split.
    + apply list_elem_of_filter in Hin. tauto.
    + split; [|done]. intros r' Hr'. apply Hmax. by rewrite elem_of_candidates.
  - apply head_order_by_created_desc_None in Hh.
    split; [|done].
    apply elem_of_nil_inv. intros r Hr.
    rewrite <-elem_of_candidates, Hh in Hr. by apply elem_of_nil in Hr.
Qed.

End Resolution.

(** * Further properties of the editor models *)

Section FrameRules.
Context `{Library}.

Lemma frame_refl w : frame w w.
Proof. by repeat split. Qed.

Lemma frame_trans w1 w2 w3 : frame w1 w2 → frame w2 w3 → frame w1 w3.
Proof.
  unfold frame, same_tables, same_changeset, same_but_target.
  intros Ha Hb. destruct_and!. repeat split; congruence.
Qed.

Lemma preserves_ret {A} (a : A) : preserves frame (mret a).
Proof. intros w. apply frame_refl. Qed.

Lemma preserves_raise {A} e : preserves frame (raise e : M World A).
Proof. intros w. apply frame_refl. Qed.

Lemma preserves_gets {A} (f : World → A) : preserves frame (gets f).
Proof. intros w. apply frame_refl. Qed.

Lemma preserves_lift {A} (r : exn + A) : preserves frame (lift r).
Proof. intros w. destruct r; apply frame_refl. Qed.

Lemma preserves_bind {A B} (m : M World A) (f : A → M World B) :
  preserves frame m → (∀ a, preserves frame (f a)) → preserves frame (m ≫= f).
Proof.
  intros Hm Hf w. unfold mbind, M_bind, run_bind.
  specialize (Hm w). destruct (m w) as [a w1|e w1]; simpl in *; [|done].
  eapply frame_trans; [done|apply Hf].
Qed.

Lemma preserves_try_except {A} (m : M World A) h :
  preserves frame m → preserves frame (try_except m h).
Proof. intros Hm w. unfold try_except. specialize (Hm w). by destruct (m w). Qed.

Lemma preserves_for_each {A} (l : list A) (body : A → M World unit) :
  (∀ a, preserves frame (body a)) → preserves frame (for_each l body).
Proof.
  intros Hb. induction l as [|a l IH]; simpl.
  - apply preserves_ret.
  - apply preserves_bind; [apply Hb|done].
Qed.

Lemma preserves_update_changeset f :
  (∀ cs, row (f cs) = row cs ∧ default_author (f cs) = default_author cs ∧
         parsed (f cs) = parsed cs ∧ prefetched_changes (f cs) = prefetched_changes cs) →
  preserves frame (update_changeset f).
Proof. intros Hf w. repeat split; simpl; apply Hf. Qed.

Lemma preserves_update_this f :
  (∀ c, pk (f c) = pk c ∧ changeset_id (f c) = changeset_id c ∧
        author (f c) = author c ∧ created (f c) = created c ∧
        action (f c) = action c ∧ deletes_change (f c) = deletes_change c ∧
        field_name (f c) = field_name c ∧ field_value (f c) = field_value c) →
  preserves frame (update_this f).
Proof. intros Hf w. repeat split; simpl; apply Hf. Qed.

Create HintDb frames discriminated.

Ltac frame_step :=
  first
    [ solve [auto with frames nocore]
    | lazymatch goal with
      | |- preserves frame (mbind _ _) => apply preserves_bind; [|intros ?]
      | |- preserves frame (mret _) => apply preserves_ret
      | |- preserves frame (raise _) => apply preserves_raise
      | |- preserves frame (gets _) => apply preserves_gets
      | |- preserves frame (lift _) => apply preserves_lift
      | |- preserves frame (update_this _) =>
          apply preserves_update_this; intros ?; by repeat split
      | |- preserves frame (update_changeset _) =>
          apply preserves_update_changeset; intros ?; by repeat split
      | |- preserves frame (try_except _ _) => apply preserves_try_except
      | |- preserves frame (for_each _ _) => apply preserves_for_each; intros ?
      | |- preserves frame (match ?x with _ => _ end) => destruct x
      end ].

Lemma preserves_parse_change c : preserves frame (_parse_change c).
Proof. unfold _parse_change. repeat frame_step. Qed.
Hint Resolve preserves_parse_change : frames.

Lemma preserves_parse_changes : preserves frame parse_changes.
Proof. unfold parse_changes. repeat frame_step. Qed.
Hint Resolve preserves_parse_changes : frames.

Lemma preserves_wrap_instance i a : preserves frame (wrap_instance i a).
Proof. unfold wrap_instance, wrap_author. repeat frame_step. Qed.
Hint Resolve preserves_wrap_instance : frames.

Lemma preserves_objects_get mc k : preserves frame (objects_get mc k).
Proof. unfold objects_get. repeat frame_step. Qed.
Hint Resolve preserves_objects_get : frames.

Lemma preserves_obj : preserves frame obj.
Proof. unfold obj. repeat frame_step. Qed.
Hint Resolve preserves_obj : frames.

Lemma preserves_set_model_class v : preserves frame (set_model_class v).
Proof. unfold set_model_class. repeat frame_step. Qed.
Hint Resolve preserves_set_model_class : frames.

Lemma preserves_Change_objects_get s : preserves frame (Change_objects_get s).
Proof. unfold Change_objects_get. repeat frame_step. Qed.
Hint Resolve preserves_Change_objects_get : frames.

Lemma preserves_set_obj_wrapped v : preserves frame (set_obj_wrapped v).
Proof. unfold set_obj_wrapped. repeat frame_step. Qed.
Hint Resolve preserves_set_obj_wrapped : frames.

Lemma preserves_set_obj v : preserves frame (set_obj v).
Proof. unfold set_obj. repeat frame_step. Qed.
Hint Resolve preserves_set_obj : frames.

Lemma preserves_resolve_target : preserves frame resolve_target.
Proof. unfold resolve_target. repeat frame_step. Qed.
Hint Resolve preserves_resolve_target : frames.

Lemma preserves_must_not_be_set fields suffix :
  preserves frame (must_not_be_set fields suffix).
Proof. unfold must_not_be_set. repeat frame_step. Qed.
Hint Resolve preserves_must_not_be_set : frames.

Lemma preserves_clean : preserves frame clean.
Proof. unfold clean. repeat frame_step. Qed.

End FrameRules.

(** ** Saving *)

Section Saving.
Context `{Library}.

Lemma bind_Ok {A B} (m : M World A) (f : A → M World B) w b w' :
  (m ≫= f) w = Ok b w' → ∃ a w1, m w = Ok a w1 ∧ f a w1 = Ok b w'.
Proof.
  unfold mbind, M_bind, run_bind. destruct (m w) as [a w1|]; [|done]. eauto.
Qed.

Lemma next_pk_above db c n : c ∈ db → pk c = Some n → n < next_pk db.
Proof.
  unfold next_pk. induction db as [|c' db IH]; intros Hc Hn.
  - by apply elem_of_nil in Hc.
  - simpl. apply elem_of_cons in Hc as [<-|Hc].
    + rewrite Hn. simpl. lia.
    + specialize (IH Hc Hn). lia.
Qed.

(** What a successful [save] did. *)
Lemma save_Ok_inv now w w' :
  save now w = Ok tt w' →
  ∃ w1, clean w = Ok tt w1 ∧ pk (this w1) = None ∧
        proposed (changeset w1) = None ∧ applied (changeset w1) = None ∧
        w' = set_db_changes
               (db_changes w1 ++
                  [set_created (Some now) (set_pk (Some (next_pk (db_changes w1))) (this w1))])
               (set_this
                  (set_created (Some now)
                     (set_pk (Some (next_pk (db_changes w1))) (this w1))) w1).
Proof.
  unfold save. intros Hs.
  apply bind_Ok in Hs as ([] & w1 & Hc & Hs). exists w1. split; [done|].
  unfold mbind, M_bind, run_bind, gets in Hs; simpl in Hs.
  destruct (pk (this w1)); [done|]. simpl in Hs.
  destruct (proposed (changeset w1)); [done|].
  destruct (applied (changeset w1)); [done|]. simpl in Hs.
  unfold Model_save, mbind, M_bind, run_bind, gets, update_this, modify in Hs;
    simpl in Hs.
  injection Hs as <-. done.
Qed.

(** X1: a [save] that returns has inserted exactly the Change it ran on, at
    the end of the table, under a pk no row had, with [created] set to the
    time of the call; it only returns for a new Change (no pk) of a
    ChangeSet that is neither proposed nor applied, and it leaves the
    action, the references and the field of the Change as they were. *)
Theorem save_persists now w w' :
  save now w = Ok tt w' →
  (pk (this w) = None ∧ proposed (changeset w) = None ∧ applied (changeset w) = None) ∧
  db_changes w' = db_changes w ++ [this w'] ∧
  (∃ n, pk (this w') = Some n ∧ ∀ c, c ∈ db_changes w → pk c ≠ Some n) ∧
  created (this w') = Some now ∧
  (changeset_id (this w') = changeset_id (this w) ∧ author (this w') = author (this w) ∧
   action (this w') = action (this w) ∧
   deletes_change (this w') = deletes_change (this w) ∧
   model_name (this w') = model_name (this w) ∧
   existing_object_pk (this w') = existing_object_pk (this w) ∧
   created_object (this w') = created_object (this w) ∧
   field_name (this w') = field_name (this w) ∧
   field_value (this w') = field_value (this w)).
Proof.
  intros Hs. apply save_Ok_inv in Hs as (w1 & Hc & Hpk & Hprop & Happ & ->).
  pose proof (keeps_clean w) as (Hdb & _ & Hthis & Hrow).
  pose proof (preserves_clean w) as (_ & _ & Hauthor).
  rewrite Hc in Hdb, Hthis, Hrow, Hauthor. simpl in *.
  apply from_db_fields in Hthis as (?&?&?&?&?&?&?&?&?).
  destruct Hauthor as (_ & _ & Hauthor & _).
  rewrite Hrow in Hprop, Happ. rewrite Hdb.
  split; [repeat split; congruence|]. split; [done|]. split.
  - eexists. split; [done|]. intros c Hc' Hn.
    pose proof (next_pk_above _ _ _ Hc' Hn). lia.
  - split; [done|]. repeat split; congruence.
Qed.

(** X2: a Change that has a pk can neither be saved again nor deleted:
    [save] fails without touching the table, with the TypeError 'change
    objects can not be edited.' when the Change passes validation, and
    [delete] always fails with a TypeError. *)
Theorem persisted_change_is_immutable now w :
  pk (this w) ≠ None →
  (∃ e w', save now w = Raise e w' ∧ db_changes w' = db_changes w ∧
     (is_Ok (clean w) = true → e = TypeError "change objects can not be edited.")) ∧
  delete w = Raise (TypeError "change objects can not be deleted directly.") w.
Proof.
  intros Hpk. split; [|done].
  unfold save, mbind, M_bind, run_bind.
  pose proof (keeps_clean w) as (Hdb & _ & Hthis & _).
  destruct (clean w) as [[] w1|e w1]; simpl in *.
  - apply from_db_fields in Hthis as (Hpk' & _).
    destruct (pk (this w1)) as [n|] eqn:Hn; simpl; [|congruence].
    eexists _, _. split; [done|]. split; done.
  - eexists _, _. split; [done|]. split; done.
Qed.

Lemma must_not_be_set_Ok fields suffix w w' :
  must_not_be_set fields suffix w = Ok tt w' →
  w' = w ∧ Forall (λ f, f.2 = false) fields.
Proof.
  unfold must_not_be_set. revert w. induction fields as [|[n b] fields IH]; intros w Hm.
  - simpl in Hm. injection Hm as <-. by split.
  - simpl in Hm. apply bind_Ok in Hm as ([] & w1 & Hb & Hm). simpl in Hb.
    destruct b; [done|]. injection Hb as <-.
    apply IH in Hm as [-> Hall]. split; [done|]. by constructor.
Qed.

Lemma obj_Ok_cached w t w' :
  obj w = Ok t w' → _set_object (this w') = Some t.
Proof.
  unfold obj, mbind, M_bind, run_bind, gets, update_this, modify. simpl.
  intros Ho.
  destruct (_set_object (this w)) as [t0|] eqn:Hset.
  - injection Ho as <- <-. done.
  - repeat match type of Ho with
      | match ?m with _ => _ end = _ => destruct m eqn:?; try done; simpl in Ho
      | match ?m with _ => _ end _ = _ => destruct m eqn:?; try done; simpl in Ho
      end.
    injection Ho as <- <-. done.
Qed.

(** X3: the Changes [clean] accepts.  An accepted delete-change refers to
    a Change of its own ChangeSet and has no model name, target reference,
    field name or field value, and [clean] changed nothing.  Any other
    accepted Change has no [deletes_change] and a model name; a create or
    delete has no field name or value; and unless it is a create, its
    target has been resolved and is cached on the Change. *)
Theorem clean_accepts w w' :
  clean w = Ok tt w' →
  (action (this w) = "delchange" ∧
   (∃ d, deletes_change (this w) = Some d ∧ changeset_id d = changeset_id (this w)) ∧
   model_name (this w) = None ∧ existing_object_pk (this w) = None ∧
   created_object (this w) = None ∧ field_name (this w) = None ∧
   field_value (this w) = None ∧ w' = w)
  ∨
  (action (this w) ≠ "delchange" ∧ deletes_change (this w) = None ∧
   model_name (this w) ≠ None ∧
   (action (this w) = "create" ∨ action (this w) = "delete" →
    field_name (this w) = None ∧ field_value (this w) = None) ∧
   (action (this w) ≠ "create" → is_Some (_set_object (this w')))).
Proof.
  unfold clean. intros Hc.
  apply bind_Ok in Hc as (c & w0 & Hg & Hc). injection Hg as <- <-.
  destruct (decide (action (this w) = "delchange")) as [Ha|Ha].
  - left. destruct (deletes_change (this w)) as [d|]; [|done].
    destruct (decide (changeset_id d ≠ changeset_id (this w))) as [|Heq]; [done|].
    apply must_not_be_set_Ok in Hc as [-> Hall].
    apply dec_stable in Heq.
    repeat (apply Forall_cons in Hall as [? Hall]); simpl in *.
    split; [done|]. split; [by eexists|].
    destruct (model_name (this w)), (existing_object_pk (this w)),
      (created_object (this w)), (field_name (this w)), (field_value (this w));
      done.
  - right. destruct (deletes_change (this w)); [done|].
    destruct (model_name (this w)) as [n|] eqn:Hn; [|done].
    apply bind_Ok in Hc as ([] & w1 & Hr & Hc).
    apply bind_Ok in Hc as (c1 & w2 & Hg & Hc). injection Hg as <- <-.
    unfold try_except in Hr.
    destruct (resolve_target w) as [[] wr|] eqn:Hres; [|done].
    injection Hr as <-.
    pose proof (keeps_resolve_target w) as (_ & _ & Hthis & _).
    rewrite Hres in Hthis. simpl in Hthis.
    apply from_db_fields in Hthis as (_ & _ & Hact & _ & _ & _ & _ & Hfn & Hfv).
    split; [done|]. split; [done|]. split; [done|]. split.
    + intros Hcd. rewrite decide_True in Hc by (by rewrite Hact).
      apply must_not_be_set_Ok in Hc as [-> Hall].
      repeat (apply Forall_cons in Hall as [? Hall]); simpl in *.
      rewrite <-Hfn, <-Hfv.
      destruct (field_name (this wr)), (field_value (this wr)); done.
    + intros Hnc.
      assert (w' = wr) as ->.
      { destruct (decide (action (this wr) = "create" ∨ action (this wr) = "delete")).
        - by apply must_not_be_set_Ok in Hc as [-> _].
        - by injection Hc as <-. }
      unfold resolve_target in Hres.
      apply bind_Ok in Hres as (c0 & w0 & Hg & Hres). injection Hg as <- <-.
      rewrite decide_False in Hres by done.
      apply bind_Ok in Hres as (t & w2 & Ho & Hret). injection Hret as <-.
      apply obj_Ok_cached in Ho. by eexists.
Qed.

End Saving.

(** ** The target of a Change *)

Section Target.
Context `{Library}.

(** X4: the [model_class] setter accepts exactly the concrete models of
    the mapdata app: for them it stores the class name, so that the getter
    gives the class back whenever the registry knows it under its name;
    for any other class it raises ValueError and leaves the Change as it
    was. *)
Theorem model_class_setter v w :
  match set_model_class (Some v) w with
  | Ok _ w' =>
      (is_model v = true ∧ abstract v = false ∧ app_label v = "mapdata") ∧
      w' = set_this (set_model_name (Some (__name__ v)) (this w)) w ∧
      (get_model (__name__ v) = Some v → model_class (this w') = inr (Some v))
  | Raise e w' =>
      ¬ (is_model v = true ∧ abstract v = false ∧ app_label v = "mapdata") ∧
      w' = w ∧ ∃ msg, e = ValueError msg
  end.
Proof.
  unfold set_model_class.
  destruct (is_model v); simpl; [|split; [intros (?&?&?); done|by eauto]].
  destruct (abstract v); simpl; [split; [intros (?&?&?); done|by eauto]|].
  destruct (decide (app_label v ≠ "mapdata")) as [Hl|Hl]; simpl.
  - split; [intros (?&?&?); done|by eauto].
  - apply dec_stable in Hl. split; [done|]. split; [done|].
    intros Hg. unfold model_class; simpl. by rewrite Hg.
Qed.

Lemma wrap_instance_Ok i a w t w' :
  wrap_instance i a w = Ok t w' →
  _obj t = i ∧ w_pk t = int_pk (inst_pk i) ∧ _changeset_id t = cs_pk (changeset w').
Proof.
  unfold wrap_instance. intros Hw.
  apply bind_Ok in Hw as (a' & w1 & _ & Hw).
  apply bind_Ok in Hw as (cs & w2 & Hg & Hw).
  injection Hg as <- <-. injection Hw as <- <-. done.
Qed.

Lemma set_obj_wrapped_Ok t w w' :
  set_obj_wrapped t w = Ok tt w' →
  _set_object (this w') = Some t ∧ is_Some (w_pk t).
Proof.
  unfold set_obj_wrapped. intros Hset.
  unfold mbind, M_bind, run_bind, gets, update_this, modify in Hset.
  destruct (w_pk t) as [[k|s]|] eqn:Hpk; simpl in Hset;
    repeat match type of Hset with
      | match ?m with _ => _ end = _ => destruct m eqn:?; try done; simpl in Hset
      | match ?m with _ => _ end _ = _ => destruct m eqn:?; try done; simpl in Hset
      end;
    injection Hset as <-; simpl; by eauto.
Qed.

Lemma obj_cached w t : _set_object (this w) = Some t → obj w = Ok t w.
Proof. intros Hs. unfold obj, mbind, M_bind, run_bind, gets; simpl. by rewrite Hs. Qed.

(** X5: the [obj] setter and getter round-trip.  After the setter has
    returned, reading [obj] gives the target back without touching
    anything, and [obj_pk] is the pk of that target, which is never None:
    the wrapper itself when a wrapper was assigned, a wrapper of the
    instance with its int pk when a model instance was. *)
Theorem obj_setter_getter value w w' :
  set_obj value w = Ok tt w' →
  ∃ t, obj w' = Ok t w' ∧ obj_pk (this w') = inr (w_pk t) ∧ is_Some (w_pk t) ∧
       match value with
       | VWrapper v => t = v
       | VInstance i => _obj t = i ∧ w_pk t = int_pk (inst_pk i)
       end.
Proof.
  unfold set_obj. intros Hs.
  apply bind_Ok in Hs as (t & w1 & Hv & Hs).
  apply set_obj_wrapped_Ok in Hs as [Hc Hpk].
  exists t. split; [by apply obj_cached|]. split.
  - unfold obj_pk. by rewrite Hc.
  - split; [done|]. destruct value as [i|v].
    + by apply wrap_instance_Ok in Hv as (? & ? & _).
    + by injection Hv as <- _.
Qed.

(** X6: a Change that has neither a cached target nor a persisted one
    cannot have its [obj] read: the getter always raises and changes
    nothing.  With no reference at all it is a TypeError; with a pending
    creation of the same model and ChangeSet it is NotImplementedError. *)
Theorem obj_of_pending_creation w :
  _set_object (this w) = None → existing_object_pk (this w) = None →
  ∃ e, obj w = Raise e w ∧
    match created_object (this w) with
    | None => e = TypeError "existing_model_pk or created_object have to be set."
    | Some co =>
        e = LookupError ∨ (∃ msg, e = TypeError msg) ∨
        (e = NotImplementedError ∧ model_class co = model_class (this w) ∧
         changeset_id co = changeset_id (this w))
    end.
Proof.
  intros Hs He. unfold obj, mbind, M_bind, run_bind, gets; simpl.
  rewrite Hs, He. destruct (created_object (this w)) as [co|]; [|by eexists].
  destruct (model_class co) as [e|mco] eqn:Hco; simpl.
  { exists e. split; [done|]. left.
    unfold model_class in Hco. destruct (model_name co); [|done].
    destruct (get_model _); [done|]. by injection Hco as <-. }
  destruct (model_class (this w)) as [e|mc] eqn:Hmc; simpl.
  { exists e. split; [done|]. left.
    unfold model_class in Hmc. destruct (model_name (this w)); [|done].
    destruct (get_model _); [done|]. by injection Hmc as <-. }
  destruct (decide (mco ≠ mc)) as [|Hm]; [by eauto 6|].
  destruct (decide (changeset_id co ≠ changeset_id (this w))) as [|Hc]; [by eauto 6|].
  apply dec_stable in Hm, Hc. subst. eexists. split; [done|]. right. right. done.
Qed.

(** X7: reading [obj] of a Change with nothing cached returns only for a
    persisted target: the Change has [existing_object_pk] set and no
    [created_object], its model resolves and the canonical store holds the
    object; the wrapper returned is of that model and pk and belongs to the
    ChangeSet; it is cached, so reading [obj] again returns it unchanged. *)
Theorem obj_of_persisted w t w' :
  _set_object (this w) = None → obj w = Ok t w' →
  ∃ k m, existing_object_pk (this w) = Some k ∧ created_object (this w) = None ∧
    model_class (this w) = inr (Some m) ∧ (m, k) ∈ store w ∧
    _obj t = {| inst_class := m; inst_pk := Some k |} ∧ w_pk t = Some (inl k) ∧
    _changeset_id t = cs_pk (changeset w) ∧
    obj w' = Ok t w' ∧ obj_pk (this w') = inr (Some (inl k)).
Proof.
  intros Hs Ho. pose proof (obj_Ok_cached _ _ _ Ho) as Hc.
  pose proof (preserves_obj w) as (_ & (Hrow & _) & _). rewrite Ho in Hrow. simpl in Hrow.
  unfold obj in Ho. apply bind_Ok in Ho as (c & w0 & Hg & Ho). injection Hg as <- <-.
  rewrite Hs in Ho.
  destruct (existing_object_pk (this w)) as [k|] eqn:Hk.
  2:{ destruct (created_object (this w)); [|done].
      unfold mbind, M_bind, run_bind in Ho.
      repeat match type of Ho with
        | match ?m with _ => _ end = _ => destruct m eqn:?; try done; simpl in Ho
        | match ?m with _ => _ end _ = _ => destruct m eqn:?; try done; simpl in Ho
        end. }
  destruct (created_object (this w)); [done|].
  apply bind_Ok in Ho as (mc & w1 & Hm & Ho).
  apply bind_Ok in Ho as (i & w2 & Hi & Ho).
  apply bind_Ok in Ho as (t' & w3 & Hw & Ho).
  apply bind_Ok in Ho as ([] & w4 & Hu & Ho). injection Ho as <- <-.
  destruct (model_class (this w)) as [|mc'] eqn:Hmc; [done|]. injection Hm as <- <-.
  unfold objects_get in Hi. destruct mc' as [m|]; [|done].
  apply bind_Ok in Hi as (st & w5 & Hg & Hi). injection Hg as <- <-.
  destruct (decide ((m, k) ∈ store w)) as [Hin|]; [|done]. injection Hi as <- <-.
  apply wrap_instance_Ok in Hw as (Hobj & Hpk & Hcs).
  injection Hu as <-. simpl in *.
  exists k, m. repeat split; try done.
  - rewrite Hcs. by rewrite Hrow.
  - unfold obj_pk; simpl. by rewrite Hpk.
Qed.

End Target.

(** ** Appending through the ChangeSet *)

Section Appending.
Context `{Library}.

Lemma new_change_Ok_inv now author kwargs w c w' :
  _new_change now author kwargs w = Ok c w' →
  ∃ w1 w3 w4,
    parse_changes w = Ok tt w1 ∧
    for_each kwargs setattr (start_change author w1) = Ok tt w3 ∧
    save now w3 = Ok tt w4 ∧ c = this w4 ∧ _parse_change c w4 = Ok tt w'.
Proof.
  unfold _new_change. intros Hn.
  apply bind_Ok in Hn as ([] & w1 & Hp & Hn).
  apply bind_Ok in Hn as (cs & w1' & Hg & Hn). injection Hg as <- <-.
  apply bind_Ok in Hn as ([] & w2 & Hm & Hn). injection Hm as <-.
  apply bind_Ok in Hn as ([] & w2' & Ha & Hn).
  apply bind_Ok in Hn as ([] & w3 & Hk & Hn).
  apply bind_Ok in Hn as ([] & w4 & Hs & Hn).
  apply bind_Ok in Hn as (c' & w4' & Hg & Hn). injection Hg as <- <-.
  apply bind_Ok in Hn as ([] & w5 & Hpc & Hn). injection Hn as <- <-.
  exists w1, w3, w4. split; [done|]. split; [|done].
  rewrite <-Hk. f_equal. unfold start_change.
  destruct (match author with
            | Some a => Some a
            | None => default_author (changeset w1)
            end) as [u|]; [|by injection Ha as <-].
  destruct (is_authenticated u); by injection Ha as <-.
Qed.

Lemma setattr_author a w :
  author (this (final (setattr a w))) = author (this w).
Proof.
  destruct a; simpl; try done.
  - by pose proof (preserves_set_model_class v w) as (_ & _ & _ & _ & ? & _).
  - by pose proof (preserves_set_obj v w) as (_ & _ & _ & _ & ? & _).
Qed.

Lemma for_each_setattr_author kwargs w :
  author (this (final (for_each kwargs setattr w))) = author (this w).
Proof.
  revert w. induction kwargs as [|a kwargs IH]; intros w; [done|].
  simpl. unfold mbind, M_bind, run_bind.
  pose proof (setattr_author a w) as Ha.
  destruct (setattr a w) as [[] w1|e w1]; simpl in *; [|done].
  by rewrite IH.
Qed.

Lemma save_Ok_fields now w w' :
  save now w = Ok tt w' →
  db_changes w' = db_changes w ++ [this w'] ∧
  is_Some (pk (this w')) ∧
  changeset_id (this w') = changeset_id (this w) ∧ author (this w') = author (this w) ∧
  action (this w') = action (this w) ∧
  model_name (this w') = model_name (this w) ∧
  existing_object_pk (this w') = existing_object_pk (this w) ∧
  created_object (this w') = created_object (this w) ∧
  field_name (this w') = field_name (this w) ∧
  field_value (this w') = field_value (this w) ∧
  updated_values (changeset w') = updated_values (changeset (final (clean w))) ∧
  deleted_existing (changeset w') = deleted_existing (changeset (final (clean w))) ∧
  _set_object (this w') = _set_object (this (final (clean w))) ∧
  row (changeset w') = row (changeset w).
Proof.
  intros Hs. apply save_Ok_inv in Hs as (w1 & Hc & Hpk & Hprop & Happ & ->).
  pose proof (keeps_clean w) as (Hdb & _ & Hthis & Hrow).
  pose proof (preserves_clean w) as (_ & _ & Hauthor).
  rewrite Hc in Hdb, Hthis, Hrow, Hauthor |- *. simpl in *.
  apply from_db_fields in Hthis as (?&?&?&?&?&?&?&?&?).
  destruct Hauthor as (_ & _ & Hauthor & _).
  rewrite Hdb. repeat split; try done; by eexists.
Qed.

Lemma clean_Ok_cached w t w' :
  _set_object (this w) = Some t → clean w = Ok tt w' → w' = w.
Proof.
  intros Hs. unfold clean. intros Hc.
  apply bind_Ok in Hc as (c & w0 & Hg & Hc). injection Hg as <- <-.
  destruct (decide (action (this w) = "delchange")).
  - destruct (deletes_change (this w)); [|done].
    destruct (decide _); [done|]. by apply must_not_be_set_Ok in Hc as [-> _].
  - destruct (deletes_change (this w)); [done|].
    destruct (model_name (this w)); [|done].
    apply bind_Ok in Hc as ([] & w1 & Hr & Hc).
    apply bind_Ok in Hc as (c1 & w2 & Hg & Hc). injection Hg as <- <-.
    assert (w1 = w) as ->.
    { unfold try_except, resolve_target, mbind, M_bind, run_bind, gets in Hr.
      simpl in Hr. destruct (decide (action (this w) = "create")).
      - destruct (model_class (this w)); simpl in Hr; [done|]. by injection Hr as <-.
      - rewrite (obj_cached w t Hs) in Hr. by injection Hr as <-. }
    destruct (decide _).
    + by apply must_not_be_set_Ok in Hc as [-> _].
    + by injection Hc as <-.
Qed.

Lemma set_model_class_Ok v w w' :
  set_model_class (Some v) w = Ok tt w' →
  w' = set_this (set_model_name (Some (__name__ v)) (this w)) w.
Proof.
  unfold set_model_class.
  destruct (is_model v); simpl; [|done].
  destruct (abstract v); simpl; [done|].
  destruct (decide (app_label v ≠ "mapdata")); simpl; [done|].
  by intros [= <-].
Qed.

(** X8: [add_create] persists one Change, a create of the class of the
    wrapped object for this ChangeSet with no target and no field, and
    gives the wrapper the pk 'c' followed by the decimal id of that Change;
    the rest of the wrapper is as it was. *)
Theorem add_create_identity now obj author w obj' w' :
  add_create now obj author w = Ok obj' w' →
  ∃ c n, db_changes w' = db_changes w ++ [c] ∧ pk c = Some n ∧
    obj' = set_w_pk (Some (inr ("c" +:+ str n))) obj ∧
    action c = "create" ∧
    model_name c = Some (__name__ (inst_class (_obj obj))) ∧
    changeset_id c = cs_pk (changeset w) ∧
    existing_object_pk c = None ∧ created_object c = None ∧
    field_name c = None ∧ field_value c = None.
Proof.
  unfold add_create. intros Ha.
  apply bind_Ok in Ha as (c & w5 & Hn & Ha).
  apply new_change_Ok_inv in Hn as (w1 & w3 & w4 & Hp & Hk & Hs & -> & Hpc).
  pose proof (preserves_parse_changes w) as ((Hdb & _) & (Hrow & _) & _).
  rewrite Hp in Hdb, Hrow. simpl in Hdb, Hrow.
  simpl in Hk. apply bind_Ok in Hk as ([] & wa & Hact & Hk). injection Hact as <-.
  apply bind_Ok in Hk as ([] & wb & Hmc & Hk). injection Hk as <-.
  apply set_model_class_Ok in Hmc as ->.
  apply save_Ok_fields in Hs
    as (Hdb4 & [n Hpk] & Hcs & _ & Hact & Hmn & Hex & Hco & Hfn & Hfv & _).
  simpl in *. rewrite Hpk in Ha. injection Ha as <- <-.
  rewrite parse_change_skips in Hpc by (rewrite Hact; done). injection Hpc as <-.
  exists (this w4), n. rewrite Hdb4, Hdb. split; [done|]. split; [done|].
  split; [done|]. split; [done|]. split; [done|].
  split; [by rewrite Hcs, <-Hrow; destruct author as [[]|], (default_author (changeset w1)) as [[]|]|].
  assert (∀ c0, (c0 = new_Change (cs_pk (changeset w1)) ∨
                 ∃ a, c0 = set_author a (new_Change (cs_pk (changeset w1)))) →
          existing_object_pk c0 = None ∧ created_object c0 = None ∧
          field_name c0 = None ∧ field_value c0 = None) as Hnew.
  { intros c0 [->|[a ->]]; done. }
  rewrite Hex, Hco, Hfn, Hfv. apply Hnew.
  destruct author as [[]|], (default_author (changeset w1)) as [[]|]; simpl; eauto.
Qed.

#[local] Arguments set_model_class : simpl never.
#[local] Arguments Change_objects_get : simpl never.

Lemma set_obj_wrapped_Ok_target t w w' :
  set_obj_wrapped t w = Ok tt w' →
  _set_object (this w') = Some t ∧
  model_name (this w') = Some (__name__ (inst_class (_obj t))) ∧
  match w_pk t with
  | Some (inl k) => existing_object_pk (this w') = Some k ∧ created_object (this w') = None
  | Some (inr s) => existing_object_pk (this w') = None ∧ is_Some (created_object (this w'))
  | None => False
  end.
Proof.
  unfold set_obj_wrapped. intros Hset.
  unfold mbind, M_bind, run_bind, gets, update_this, modify in Hset.
  destruct (w_pk t) as [[k|s]|] eqn:Hpk; simpl in Hset.
  - destruct (lift (model_class (this w)) w) as [mb w1|]; [|done].
    destruct (set_model_class _ w1) as [[] w2|] eqn:Hm; [|done].
    apply set_model_class_Ok in Hm as ->. injection Hset as <-. done.
  - destruct (decide (_changeset_id t ≠ cs_pk (changeset w))); [done|].
    destruct (set_model_class _ w) as [[] w2|] eqn:Hm; [|done].
    apply set_model_class_Ok in Hm as ->.
    destruct (Change_objects_get (tail_str s) _) as [co w3|] eqn:Hco; [|done].
    pose proof (preserves_Change_objects_get (tail_str s)
                  (set_this (set_model_name (Some (__name__ (inst_class (_obj t))))
                               (this w)) w)) as Hf.
    rewrite Hco in Hf. simpl in Hf.
    assert (this w3 = set_model_name (Some (__name__ (inst_class (_obj t)))) (this w))
      as Hthis.
    { unfold Change_objects_get in Hco. destruct (int_of_str _); [|done].
      apply bind_Ok in Hco as (db & w0 & Hg & Hco). injection Hg as <- <-.
      destruct (List.find _ _); [|done]. by injection Hco as <- <-. }
    simpl in Hset. destruct (int_of_str (tail_str s)); [|done].
    injection Hset as <-. simpl. rewrite Hthis. simpl. split; [done|]. split; [done|].
    split; [done|]. by eexists.
  - destruct (lift (model_class (this w)) w) as [mb w1|]; [|done].
    destruct (set_model_class _ w1) as [[] w2|]; [|done].
    by destruct (set_model_class mb w2) as [[] w3|].
Qed.

(** The state after the keyword arguments of [_add_value] were set on a
    Change, when they were set without error. *)
Lemma add_value_kwargs_Ok act t name text w w3 :
  for_each [a_action act; a_obj (VWrapper t); a_field_name (Some name);
            a_field_value (Some text)] setattr w = Ok tt w3 →
  action (this w3) = act ∧ field_name (this w3) = Some name ∧
  field_value (this w3) = Some text ∧ _set_object (this w3) = Some t ∧
  model_name (this w3) = Some (__name__ (inst_class (_obj t))) ∧
  match w_pk t with
  | Some (inl k) => existing_object_pk (this w3) = Some k ∧ created_object (this w3) = None
  | Some (inr s) => existing_object_pk (this w3) = None ∧ is_Some (created_object (this w3))
  | None => False
  end ∧
  db_changes w3 = db_changes w ∧ changeset_id (this w3) = changeset_id (this w).
Proof.
  simpl. intros Hk.
  apply bind_Ok in Hk as ([] & wa & Hact & Hk). injection Hact as <-.
  apply bind_Ok in Hk as ([] & wb & Hobj & Hk).
  apply bind_Ok in Hk as ([] & wc & Hfn & Hk). injection Hfn as <-.
  apply bind_Ok in Hk as ([] & wd & Hfv & Hk). injection Hfv as <-.
  injection Hk as <-.
  pose proof (preserves_set_obj (VWrapper t) (set_this (set_action act (this w)) w))
    as ((Hdb & _) & _ & (_ & Hcs & _ & _ & Ha & _)).
  rewrite Hobj in Hdb, Hcs, Ha. simpl in Hdb, Hcs, Ha.
  unfold set_obj in Hobj. apply bind_Ok in Hobj as (t' & w0 & Hg & Hobj).
  injection Hg as <- <-.
  apply set_obj_wrapped_Ok_target in Hobj as (Hc & Hm & Hpk).
  simpl. repeat split; try done; by destruct (w_pk t) as [[]|].
Qed.

(** X9: read your writes.  When [add_update] returns, it has appended one
    update Change for the wrapped object and field, and the overlay
    projection of the ChangeSet object holds, under the model of the
    Change, the pk of the wrapper and the field name, the value that
    json.loads gives for the text json.dumps made of the value. *)
Theorem add_update_read_your_write now t name value by_user w c w' :
  add_update now (VWrapper t) name value by_user w = Ok c w' →
  db_changes w' = db_changes w ++ [c] ∧
  action c = "update" ∧ field_name c = Some name ∧
  field_value c = Some (json_dumps value) ∧ obj_pk c = inr (w_pk t) ∧
  ∃ mc v, model_class c = inr mc ∧ json_loads (json_dumps value) = Some v ∧
    get_value (updated_values (changeset w')) mc (w_pk t) (Some name) = Some v.
Proof.
  unfold add_update, _add_value. intros Hn.
  apply new_change_Ok_inv in Hn as (w1 & w3 & w4 & Hp & Hk & Hs & -> & Hpc).
  pose proof (preserves_parse_changes w) as ((Hdb & _) & _). rewrite Hp in Hdb.
  simpl in Hdb.
  apply add_value_kwargs_Ok in Hk as (Ha & Hfn & Hfv & Hc & _ & _ & Hdb3 & _).
  pose proof (save_Ok_fields _ _ _ Hs)
    as (Hdb4 & _ & _ & _ & Ha4 & _ & _ & _ & Hfn4 & Hfv4 & _ & _ & Hc4 & _).
  apply save_Ok_inv in Hs as (wc & Hclean & _).
  pose proof (clean_Ok_cached _ _ _ Hc Hclean) as ->. rewrite Hclean in Hc4.
  simpl in Hc4. rewrite Hc in Hc4. rewrite Ha in Ha4. rewrite Hfn in Hfn4.
  rewrite Hfv in Hfv4.
  pose proof (preserves_parse_change (this w4) w4) as ((Hdb5 & _) & _).
  rewrite Hpc in Hdb5. simpl in Hdb5.
  assert (obj_pk (this w4) = inr (w_pk t)) as Hk by (unfold obj_pk; by rewrite Hc4).
  simpl in Hdb3.
  split; [by rewrite Hdb5, Hdb4, Hdb3, Hdb|]. split; [done|]. split; [done|].
  split; [done|]. split; [done|].
  destruct (parse_change_Ok _ _ _ Hpc) as (d & Hd & _).
  unfold delta in Hd. rewrite decide_True in Hd by done. rewrite Hk in Hd.
  destruct (model_class (this w4)) as [|mc] eqn:Hmc; [done|].
  destruct (loads (field_value (this w4))) as [|v] eqn:Hv; [done|].
  rewrite (parse_change_update _ _ _ _ _ Ha4 Hmc Hk Hv) in Hpc.
  injection Hpc as <-. simpl.
  exists mc, v. split; [done|]. split.
  - rewrite Hfv4 in Hv. unfold loads in Hv.
    destruct (json_loads (json_dumps value)); [|done]. by injection Hv as <-.
  - rewrite Hfn4. apply get_value_write_eq.
Qed.

Lemma delete_kwargs_Ok t w w3 :
  for_each [a_action "delete"; a_obj (VWrapper t)] setattr w = Ok tt w3 →
  action (this w3) = "delete" ∧ _set_object (this w3) = Some t ∧
  match w_pk t with
  | Some (inl k) => existing_object_pk (this w3) = Some k ∧ created_object (this w3) = None
  | Some (inr s) => existing_object_pk (this w3) = None ∧ is_Some (created_object (this w3))
  | None => False
  end ∧
  db_changes w3 = db_changes w.
Proof.
  simpl. intros Hk.
  apply bind_Ok in Hk as ([] & wa & Hact & Hk). injection Hact as <-.
  apply bind_Ok in Hk as ([] & wb & Hobj & Hk). injection Hk as <-.
  pose proof (preserves_set_obj (VWrapper t) (set_this (set_action "delete" (this w)) w))
    as ((Hdb & _) & _ & (_ & _ & _ & _ & Ha & _)).
  rewrite Hobj in Hdb, Ha. simpl in Hdb, Ha.
  unfold set_obj in Hobj. apply bind_Ok in Hobj as (t' & w0 & Hg & Hobj).
  injection Hg as <- <-.
  by apply set_obj_wrapped_Ok_target in Hobj as (Hc & _ & Hpk).
Qed.

(** X10: when [add_delete] returns for a wrapped object with an int pk, it
    has appended one delete Change for it, and the pk is in
    [deleted_existing] of the ChangeSet object under the model of the
    Change. *)
Theorem add_delete_marks_deleted now t by_user w c w' k :
  w_pk t = Some (inl k) →
  add_delete now (VWrapper t) by_user w = Ok c w' →
  db_changes w' = db_changes w ++ [c] ∧
  action c = "delete" ∧ existing_object_pk c = Some k ∧ created_object c = None ∧
  ∃ mc, model_class c = inr mc ∧
        k ∈ default ∅ (deleted_existing (changeset w') !! mc).
Proof.
  unfold add_delete. intros Hpk Hn.
  apply new_change_Ok_inv in Hn as (w1 & w3 & w4 & Hp & Hk & Hs & -> & Hpc).
  pose proof (preserves_parse_changes w) as ((Hdb & _) & _). rewrite Hp in Hdb.
  simpl in Hdb.
  apply delete_kwargs_Ok in Hk as (Ha & _ & Ht & Hdb3). rewrite Hpk in Ht.
  destruct Ht as [Hex Hco].
  pose proof (save_Ok_fields _ _ _ Hs)
    as (Hdb4 & _ & _ & _ & Ha4 & _ & Hex4 & Hco4 & _).
  rewrite Ha in Ha4. rewrite Hex in Hex4. rewrite Hco in Hco4.
  pose proof (preserves_parse_change (this w4) w4) as ((Hdb5 & _) & _).
  rewrite Hpc in Hdb5. simpl in Hdb5.
  simpl in Hdb3.
  split; [by rewrite Hdb5, Hdb4, Hdb3, Hdb|]. split; [done|]. split; [done|].
  split; [done|].
  destruct (parse_change_Ok _ _ _ Hpc) as (d & Hd & ->).
  unfold delta in Hd. rewrite decide_False in Hd by (by rewrite Ha4).
  rewrite decide_True in Hd by done. rewrite Hex4 in Hd.
  destruct (model_class (this w4)) as [|mc]; [done|]. injection Hd as <-.
  exists mc. split; [done|]. simpl.
  rewrite mark_deleted_merge. unfold mark_deleted. rewrite lookup_insert_eq. simpl.
  set_solver.
Qed.

(** X11: attribution.  The Change [_new_change] returns carries the id of
    the author given, or of the default author of the ChangeSet when none
    is given, and carries no author when that user is not authenticated
    (or there is none); no keyword argument changes it. *)
Theorem new_change_attribution now by_user kwargs w c w' :
  _new_change now by_user kwargs w = Ok c w' →
  author c =
    match by_user with
    | Some u => user_id u
    | None => default_author (changeset w) ≫= user_id
    end.
Proof.
  intros Hn.
  apply new_change_Ok_inv in Hn as (w1 & w3 & w4 & Hp & Hk & Hs & -> & _).
  pose proof (preserves_parse_changes w) as (_ & (_ & Hda & _) & _).
  rewrite Hp in Hda. simpl in Hda.
  apply save_Ok_fields in Hs as (_ & _ & _ & -> & _).
  pose proof (for_each_setattr_author kwargs (start_change by_user w1)) as Ha.
  rewrite Hk in Ha. simpl in Ha. rewrite Ha, <-Hda.
  destruct by_user as [[|i]|]; simpl; try done.
  by destruct (default_author (changeset w1)) as [[|i]|].
Qed.

End Appending.

(** ** Wrapping *)

Section Wrapping.
Context `{Library}.

Lemma wrap_author_Ok by_user w a w' :
  wrap_author by_user w = Ok a w' →
  a = wrapper_author by_user w ∧ cs_pk (changeset w') = cs_pk (changeset w).
Proof.
  unfold wrap_author. intros Hw.
  apply bind_Ok in Hw as ([] & w1 & Hp & Hw).
  apply bind_Ok in Hw as (cs & w2 & Hg & Hw). injection Hg as <- <-.
  injection Hw as <- <-.
  pose proof (preserves_parse_changes w) as (_ & (Hrow & Hda & _) & _).
  rewrite Hp in Hrow, Hda. simpl in Hrow, Hda.
  unfold wrapper_author. by rewrite Hda, Hrow.
Qed.

(** X23: [wrap] returns only for a model name the registry knows, a model
    class, or a model instance; the wrapper it returns is of that model or
    instance and of this ChangeSet, an instance wrapper has the pk of the
    instance, and its author is the one given, or else the default author
    of the ChangeSet, but never a user who is not authenticated. *)
Theorem wrap_returns obj by_user w r w' :
  wrap obj by_user w = Ok r w' →
  match obj, r with
  | PStr s, WModel m =>
      get_model s = Some (mw_class m) ∧ mw_author m = wrapper_author by_user w ∧
      mw_changeset_id m = cs_pk (changeset w)
  | PClass c, WModel m =>
      is_model c = true ∧ mw_class m = c ∧ mw_author m = wrapper_author by_user w ∧
      mw_changeset_id m = cs_pk (changeset w)
  | PInstance i, WInstance t =>
      _obj t = i ∧ w_pk t = int_pk (inst_pk i) ∧
      w_author t = wrapper_author by_user w ∧ _changeset_id t = cs_pk (changeset w)
  | _, _ => False
  end.
Proof.
  unfold wrap. intros Hw. destruct obj as [s|c|i|].
  - apply bind_Ok in Hw as (a & w1 & Ha & Hw).
    apply bind_Ok in Hw as (cs & w2 & Hg & Hw). injection Hg as <- <-.
    apply wrap_author_Ok in Ha as [-> Hpk].
    destruct (get_model s); [|done]. injection Hw as <- <-. simpl.
    by rewrite Hpk.
  - apply bind_Ok in Hw as (a & w1 & Ha & Hw).
    apply bind_Ok in Hw as (cs & w2 & Hg & Hw). injection Hg as <- <-.
    apply wrap_author_Ok in Ha as [-> Hpk].
    destruct (is_model c); [|done]. injection Hw as <- <-. simpl.
    by rewrite Hpk.
  - apply bind_Ok in Hw as (t & w1 & Ht & Hw). injection Hw as <- <-.
    unfold wrap_instance in Ht.
    apply bind_Ok in Ht as (a & w2 & Ha & Ht).
    apply bind_Ok in Ht as (cs & w3 & Hg & Ht). injection Hg as <- <-.
    apply wrap_author_Ok in Ha as [-> Hpk].
    injection Ht as <- <-. simpl. by rewrite Hpk.
  - by apply bind_Ok in Hw as (a & w1 & Ha & Hw).
Qed.

End Wrapping.

(** ** The overlay projection only grows *)

Section Growth.
Context `{Library}.

Lemma get_value_merge_uv (d uv : UpdatedValues) mc k f :
  is_Some (get_value uv mc k f) → is_Some (get_value (merge_uv d uv) mc k f).
Proof.
  unfold get_value, merge_uv. rewrite lookup_mmerge.
  destruct (uv !! mc) as [b|]; simpl; [|by intros [? ?]].
  destruct (d !! mc) as [a|]; simpl; [|done].
  rewrite lookup_mmerge.
  destruct (b !! k) as [b'|]; simpl; [|by intros [? ?]].
  destruct (a !! k) as [a'|]; simpl; [|done].
  intros [v Hv]. rewrite lookup_union, Hv. by destruct (a' !! f); eexists.
Qed.

Lemma elem_of_merge_de (d de : DeletedExisting) mc (k : Z) :
  k ∈ default ∅ (de !! mc) → k ∈ default ∅ (merge_de d de !! mc).
Proof.
  unfold merge_de. rewrite lookup_mmerge.
  destruct (de !! mc) as [b|]; simpl; [|set_solver].
  destruct (d !! mc) as [a|]; simpl; set_solver.
Qed.

Lemma fold_log_grows l w w' :
  fold_log l w = Ok tt w' →
  (∀ mc k f, is_Some (get_value (updated_values (changeset w)) mc k f) →
             is_Some (get_value (updated_values (changeset w')) mc k f)) ∧
  (∀ mc k, k ∈ default ∅ (deleted_existing (changeset w) !! mc) →
           k ∈ default ∅ (deleted_existing (changeset w') !! mc)).
Proof.
  intros Hf. apply fold_log_Ok in Hf as (d & _ & ->). simpl. split.
  - intros mc k f. apply get_value_merge_uv.
  - intros mc k. apply elem_of_merge_de.
Qed.

(** X12: folding never takes anything out of the overlay projection.
    After [parse_changes], every (model, pk, field) that had a value in
    [updated_values] still has one, and every pk in [deleted_existing] is
    still there, whatever the log holds. *)
Theorem parse_changes_only_grows w w' :
  parse_changes w = Ok tt w' →
  (∀ mc k f, is_Some (get_value (updated_values (changeset w)) mc k f) →
             is_Some (get_value (updated_values (changeset w')) mc k f)) ∧
  (∀ mc k, k ∈ default ∅ (deleted_existing (changeset w) !! mc) →
           k ∈ default ∅ (deleted_existing (changeset w') !! mc)).
Proof.
  intros Hp. destruct (parsed (changeset w)) eqn:Hparsed.
  - unfold parse_changes, mbind, M_bind, run_bind, gets in Hp; simpl in Hp.
    rewrite Hparsed in Hp. by injection Hp as <-.
  - rewrite parse_changes_unparsed in Hp by done. apply (fold_log_grows _ _ _ Hp).
Qed.

(** X13: every delete of a persisted object in the log of a ChangeSet is
    in [deleted_existing] after [parse_changes], under the model of the
    Change, wherever the delete stands in the log and whatever follows
    it. *)
Theorem parse_changes_marks_deleted w w' c k :
  parsed (changeset w) = false → c ∈ changes_all w →
  action c = "delete" → existing_object_pk c = Some k →
  parse_changes w = Ok tt w' →
  ∃ mc, model_class c = inr mc ∧
        k ∈ default ∅ (deleted_existing (changeset w') !! mc).
Proof.
  intros Hparsed Hc Ha Hk Hp. rewrite parse_changes_unparsed in Hp by done.
  apply list_elem_of_split in Hc as (pre & post & Hl).
  rewrite Hl, fold_log_app in Hp.
  destruct (fold_log pre w) as [[] w1|]; [|done].
  rewrite fold_log_cons in Hp.
  destruct (_parse_change c w1) as [[] w2|] eqn:Hpc; [|done].
  apply parse_change_Ok in Hpc as (d & Hd & ->).
  unfold delta in Hd. rewrite decide_False in Hd by (by rewrite Ha).
  rewrite decide_True, Hk in Hd by done.
  destruct (model_class c) as [|mc]; [done|]. injection Hd as <-.
  exists mc. split; [done|].
  apply (fold_log_grows _ _ _ Hp). simpl.
  rewrite mark_deleted_merge. unfold mark_deleted. rewrite lookup_insert_eq. simpl.
  set_solver.
Qed.

End Growth.

(** ** The ChangeSet a request is given *)

Section Given.
Context `{Library}.

Lemma head_filter_Some {A} (P : A → Prop) `{∀ x, Decision (P x)} (l : list A) x :
  head (filter P l) = Some x → P x ∧ x ∈ l.
Proof.
  intros Hh. assert (x ∈ filter P l) as Hin.
  { destruct (filter P l); [done|]. injection Hh as ->. by left. }
  by apply list_elem_of_filter in Hin.
Qed.

Lemma head_filter_is_Some {A} (P : A → Prop) `{∀ x, Decision (P x)} (l : list A) x :
  x ∈ l → P x → is_Some (head (filter P l)).
Proof.
  intros Hin HP. assert (x ∈ filter P l) as Hf by (by apply list_elem_of_filter).
  destruct (filter P l); [by apply elem_of_nil in Hf|by eexists].
Qed.

Lemma elem_of_qs_for_request user t r :
  r ∈ qs_for_request user t ↔
  r ∈ t ∧ applied r = None ∧ (cs_author r = None ∨ cs_author r = user_id user).
Proof.
  unfold qs_for_request, qs_base. destruct user as [|i]; simpl.
  - rewrite !list_elem_of_filter. tauto.
  - rewrite !list_elem_of_filter. tauto.
Qed.

Lemma elem_of_update_row r' t r :
  r ∈ t → cs_pk r = cs_pk r' → r' ∈ update_row r' t.
Proof.
  intros Hin Hpk. unfold update_row. apply list_elem_of_fmap.
  exists r. by rewrite decide_True.
Qed.

(** What [get_for_request] guarantees, in one statement. *)
Lemma get_for_request_given now user st res cs st' :
  get_for_request now user st = (res, cs, st') →
  applied cs = None ∧ cs_author cs = user_id user ∧
  default_author cs = Some user ∧ session_changeset_pk st' = cs_pk cs ∧
  row cs ∈ db_changesets st' ∧
  (is_Some (cs_pk cs) ∨ ∃ r, r ∈ db_changesets st ∧ cs_pk r = cs_pk cs) ∧
  (user = AnonymousUser → res ≠ Resumed).
Proof.
  unfold get_for_request.
  assert (∀ res cs st', resume_or_create now user st = (res, cs, st') →
    applied cs = None ∧ cs_author cs = user_id user ∧
    default_author cs = Some user ∧ session_changeset_pk st' = cs_pk cs ∧
    row cs ∈ db_changesets st' ∧
    (is_Some (cs_pk cs) ∨ ∃ r, r ∈ db_changesets st ∧ cs_pk r = cs_pk cs) ∧
    (user = AnonymousUser → res ≠ Resumed)) as Hroc.
  { clear. intros res cs st'. unfold resume_or_create.
    destruct (if is_authenticated user then _ else None) as [r|] eqn:Hcand.
    - intros [= <- <- <-]. simpl.
      destruct user as [|i]; [done|]. simpl in Hcand.
      apply head_order_by_created_desc in Hcand as [Hin _].
      apply list_elem_of_filter in Hin as [Ha Hin].
      apply elem_of_qs_for_request in Hin as (Hin & Happ & _).
      repeat split; try done. right. by exists r.
    - intros [= <- <- <-]. simpl. repeat split; try done.
      + by destruct user.
      + apply elem_of_app. right. by left.
      + left. by eexists. }
  destruct (session_changeset_pk st) as [k|] eqn:Hsess; [|apply Hroc].
  destruct (head _) as [r|] eqn:Hh; [|apply Hroc].
  apply head_filter_Some in Hh as [Hpk Hin].
  apply elem_of_qs_for_request in Hin as (Hin & Happ & Hauth).
  destruct (bool_decide (cs_author r = None) && is_authenticated user) eqn:Hadopt.
  - intros [= <- <- <-]. simpl.
    repeat split; try done;
      [by apply (elem_of_update_row _ _ r)|right; by exists r].
  - intros [= <- <- <-]. simpl.
    assert (cs_author r = user_id user) as Hau.
    { apply andb_false_iff in Hadopt as [Hn|Hn].
      - apply bool_decide_eq_false in Hn. by destruct Hauth.
      - destruct user; [|done]. simpl. destruct Hauth as [->| ->]; done. }
    repeat split; try done; try (by rewrite Hsess, Hpk).
    right. by exists r.
Qed.

(** X14: whatever way [get_for_request] resolves, the ChangeSet it returns
    is not applied, its author is the requesting user (none for an
    anonymous one), its default author is the requesting user, its row is
    in the table afterwards and the session refers to it; and an anonymous
    request is never given a ChangeSet by looking up its author. *)
Theorem get_for_request_returns now user st res cs st' :
  get_for_request now user st = (res, cs, st') →
  applied cs = None ∧ cs_author cs = user_id user ∧
  default_author cs = Some user ∧ session_changeset_pk st' = cs_pk cs ∧
  row cs ∈ db_changesets st' ∧
  (user = AnonymousUser → res ≠ Resumed).
Proof.
  intros Hg. apply get_for_request_given in Hg as (?&?&?&?&?&_&?). done.
Qed.

(** X15: resolution is stable.  When every ChangeSet of the table has a
    pk, a second [get_for_request] of the same user, in the state the
    first one left, finds the ChangeSet through the session reference and
    returns the one with the same pk. *)
Theorem get_for_request_again now now' user st res cs st' :
  (∀ r, r ∈ db_changesets st → is_Some (cs_pk r)) →
  get_for_request now user st = (res, cs, st') →
  ∃ cs2 st2, get_for_request now' user st' = (FromSession, cs2, st2) ∧
             cs_pk cs2 = cs_pk cs.
Proof.
  intros Hpks Hg.
  apply get_for_request_given in Hg as (Happ & Hauth & _ & Hsess & Hin & Hold & _).
  assert (is_Some (cs_pk cs)) as [k Hk].
  { destruct Hold as [?|(r & Hr & <-)]; [done|by apply Hpks]. }
  unfold get_for_request. rewrite Hsess, Hk.
  destruct (head_filter_is_Some (λ r, cs_pk r = Some k)
              (qs_for_request user (db_changesets st')) (row cs)) as [r2 Hr2]; [|done|].
  { apply elem_of_qs_for_request. split; [done|]. split; [done|]. by right. }
  rewrite Hr2. apply head_filter_Some in Hr2 as [Hpk2 _].
  destruct (bool_decide (cs_author r2 = None) && is_authenticated user).
  - eexists _, _. split; [done|]. simpl. by rewrite Hpk2.
  - eexists _, _. split; [done|]. simpl. by rewrite Hpk2.
Qed.

End Given.

(** * Properties of the grid *)

Section GridOrder.
#[local] Open Scope nat_scope.
Context {T : Type} (le : relation T).
Context `{!PartialOrder le, !Total le, !RelDecision le, !EqDecision T}.

Lemma float_lt_le x y : ¬ float_lt le x y → le y x.
Proof. unfold float_lt. apply dec_stable. Qed.

Lemma float_lt_trans_le x y z : float_lt le x y → le y z → float_lt le x z.
Proof. unfold float_lt. intros Hxy Hyz Hzx. apply Hxy. by trans z. Qed.

Lemma StronglySorted_lookup_le (a : list T) i j y z :
  StronglySorted le a → i ≤ j → a !! i = Some y → a !! j = Some z → le y z.
Proof.
  intros Hs. revert i j. induction Hs as [|c a Hs IH Hall]; intros i j Hij Hi Hj.
  - done.
  - destruct i as [|i], j as [|j]; simpl in *; try lia.
    + by simplify_eq.
    + injection Hi as <-. rewrite Forall_forall in Hall.
      apply Hall. by eapply list_elem_of_lookup_2.
    + eapply (IH i j); [lia|done..].
Qed.

Lemma bisect_loop_S (a : list T) x fuel lo hi :
  bisect_loop le (S fuel) a x lo hi =
    if decide (lo < hi) then
      match a !! ((lo + hi) `div` 2) with
      | Some y =>
          if decide (float_lt le x y)
          then bisect_loop le fuel a x lo ((lo + hi) `div` 2)
          else bisect_loop le fuel a x ((lo + hi) `div` 2 + 1) hi
      | None => lo
      end
    else lo.
Proof. done. Qed.

(** The loop of bisect between [lo] and [hi], on a sorted list. *)
Lemma bisect_loop_spec (a : list T) x fuel lo hi :
  StronglySorted le a → lo ≤ hi → hi ≤ length a → hi - lo ≤ fuel →
  (∀ i y, i < lo → a !! i = Some y → le y x) →
  (∀ i y, hi ≤ i → a !! i = Some y → float_lt le x y) →
  lo ≤ bisect_loop le fuel a x lo hi ≤ hi ∧
  (∀ i y, i < bisect_loop le fuel a x lo hi → a !! i = Some y → le y x) ∧
  (∀ i y, bisect_loop le fuel a x lo hi ≤ i → a !! i = Some y → float_lt le x y).
Proof.
  intros Hs. revert lo hi. induction fuel as [|fuel IH]; intros lo hi Hlh Hlen Hf Hlo Hhi.
  - simpl. assert (lo = hi) as -> by lia. split; [lia|]. split; [done|done].
  - rewrite bisect_loop_S. destruct (decide (lo < hi)) as [Hlt|Hge].
    2:{ assert (lo = hi) as -> by lia. split; [lia|]. split; [done|done]. }
    assert (lo ≤ (lo + hi) `div` 2 ∧ (lo + hi) `div` 2 < hi) as [Hm1 Hm2].
    { split.
      - apply Nat.div_le_lower_bound; lia.
      - apply Nat.Div0.div_lt_upper_bound; lia. }
    destruct (lookup_lt_is_Some_2 a ((lo + hi) `div` 2)) as [y Hy]; [lia|].
    rewrite Hy. destruct (decide (float_lt le x y)) as [Hxy|Hxy].
    + destruct (IH lo ((lo + hi) `div` 2)) as (Hr & Hbelow & Habove); try lia; try done.
      { intros i z Hi Hz. eapply float_lt_trans_le; [done|].
        by eapply (StronglySorted_lookup_le a ((lo + hi) `div` 2) i). }
      split; [lia|]. split; done.
    + apply float_lt_le in Hxy.
      destruct (IH ((lo + hi) `div` 2 + 1) hi) as (Hr & Hbelow & Habove);
        try lia; try done.
      { intros i z Hi Hz. trans y; [|done].
        eapply (StronglySorted_lookup_le a i ((lo + hi) `div` 2)); [done|lia|done..]. }
      split; [lia|]. split; done.
Qed.

(** bisect on a sorted list: the number of elements that are not after
    [x]. *)
Lemma bisect_spec (a : list T) x :
  StronglySorted le a →
  bisect le a x ≤ length a ∧
  (∀ i y, i < bisect le a x → a !! i = Some y → le y x) ∧
  (∀ i y, bisect le a x ≤ i → a !! i = Some y → float_lt le x y).
Proof.
  intros Hs. unfold bisect.
  destruct (bisect_loop_spec a x (length a) 0 (length a)) as (Hr & Hb & Ha);
    try done; try lia.
  - intros i y Hi Hy. apply lookup_lt_Some in Hy. lia.
  - split; [lia|]. by split.
Qed.

Lemma bisect_mono (a : list T) x x' :
  StronglySorted le a → le x x' → bisect le a x ≤ bisect le a x'.
Proof.
  intros Hs Hxx'.
  destruct (bisect_spec a x Hs) as (Hlen & Hb & _).
  destruct (bisect_spec a x' Hs) as (Hlen' & _ & Ha').
  destruct (decide (bisect le a x ≤ bisect le a x')) as [|Hlt]; [done|].
  destruct (lookup_lt_is_Some_2 a (bisect le a x')) as [y Hy]; [lia|].
  exfalso. apply (Ha' _ y (Nat.le_refl _) Hy).
  trans x; [|done]. apply (Hb (bisect le a x') y); [lia|done].
Qed.

Lemma bisect_pos (a : list T) x :
  StronglySorted le a →
  0 < bisect le a x ↔ ∃ c, head a = Some c ∧ le c x.
Proof.
  intros Hs. destruct (bisect_spec a x Hs) as (Hlen & Hb & Ha). split.
  - intros Hpos. destruct (lookup_lt_is_Some_2 a 0) as [c Hc]; [lia|].
    exists c. rewrite head_lookup. split; [done|]. by apply (Hb 0).
  - intros (c & Hc & Hle). rewrite head_lookup in Hc.
    destruct (decide (0 < bisect le a x)) as [|Hz]; [done|].
    exfalso. apply (Ha 0 c); [lia|done|done].
Qed.

Lemma bisect_lt_length (a : list T) x :
  StronglySorted le a →
  bisect le a x < length a ↔ ∃ c, last a = Some c ∧ float_lt le x c.
Proof.
  intros Hs. destruct (bisect_spec a x Hs) as (Hlen & Hb & Ha). split.
  - intros Hlt. destruct (lookup_lt_is_Some_2 a (pred (length a))) as [c Hc]; [lia|].
    exists c. rewrite last_lookup. split; [done|]. apply (Ha (pred (length a))); [lia|done].
  - intros (c & Hc & Hxc). rewrite last_lookup in Hc.
    pose proof (lookup_lt_Some _ _ _ Hc) as Hl.
    destruct (decide (bisect le a x < length a)) as [|Hz]; [done|].
    exfalso. apply Hxc. apply (Hb (pred (length a))); [lia|done].
Qed.

(** sorted(l) == l exactly when l is ascending. *)
Lemma sorted_fixed (l : list T) : sorted le l = l ↔ Sorted le l.
Proof.
  unfold sorted. split.
  - intros <-. apply Sorted_merge_sort, _.
  - intros Hs. apply (StronglySorted_unique le).
    + apply StronglySorted_merge_sort; apply _.
    + by apply (Sorted_StronglySorted le).
    + apply merge_sort_Permutation.
Qed.

Lemma sorted_reverse (l : list T) : sorted le l = reverse l ↔ Sorted le (reverse l).
Proof.
  unfold sorted. split.
  - intros <-. apply Sorted_merge_sort, _.
  - intros Hs. apply (StronglySorted_unique le).
    + apply StronglySorted_merge_sort; apply _.
    + by apply (Sorted_StronglySorted le).
    + by rewrite merge_sort_Permutation, reverse_Permutation.
Qed.

Lemma orientation_spec (given : list T) msg :
  match orientation le given msg with
  | inr inverted =>
      Sorted le (sorted le given) ∧
      sorted le given = (if inverted then reverse given else given) ∧
      (inverted = true → ¬ Sorted le given)
  | inl e => ¬ Sorted le given ∧ ¬ Sorted le (reverse given) ∧ e = GridValueError msg
  end.
Proof.
  unfold orientation.
  destruct (decide (sorted le given = given)) as [Ha|Ha].
  - split; [apply Sorted_merge_sort, _|]. split; done.
  - destruct (decide (sorted le given = reverse given)) as [Hd|Hd].
    + split; [apply Sorted_merge_sort, _|]. split; [done|].
      intros _ Hs. by apply Ha, sorted_fixed.
    + split; [by rewrite <-sorted_fixed|]. split; [by rewrite <-sorted_reverse|done].
Qed.

End GridOrder.

Section GridProps.
#[local] Open Scope nat_scope.
Context {T Raw : Type} (le : relation T) (to_float : Raw → option T).
Context `{!PartialOrder le, !Total le, !RelDecision le, !EqDecision T}.

Lemma Grid_of_floats_Ok (ys xs : list T) g :
  Grid_of_floats le ys xs = inr g →
  StronglySorted le (rows g) ∧ StronglySorted le (cols g) ∧
  rows g = (if invert_y g then reverse ys else ys) ∧
  cols g = (if invert_x g then reverse xs else xs).
Proof.
  unfold Grid_of_floats. intros Hg.
  pose proof (orientation_spec le ys "row coordinates are not ordered") as Hy.
  pose proof (orientation_spec le xs "column coordinates are not ordered") as Hx.
  destruct (orientation le ys _) as [|iy]; [done|].
  destruct (orientation le xs _) as [|ix]; [done|].
  injection Hg as <-. simpl.
  destruct Hy as (_ & Hy & _), Hx as (_ & Hx & _).
  split; [apply StronglySorted_merge_sort; apply _|].
  split; [apply StronglySorted_merge_sort; apply _|]. done.
Qed.

(** X16: [Grid.__init__] accepts exactly the coordinates that all convert
    to floats and are, on each axis, in ascending or in descending order.
    The grid then holds both axes in ascending order, and an axis is
    inverted exactly when its lines were given the other way round. *)
Theorem Grid_init_accepts (ys xs : list Raw) :
  match Grid_init le to_float ys xs with
  | inr g =>
      ∃ r c, floats to_float ys = inr r ∧ floats to_float xs = inr c ∧
        Sorted le (rows g) ∧ Sorted le (cols g) ∧
        rows g = (if invert_y g then reverse r else r) ∧
        cols g = (if invert_x g then reverse c else c) ∧
        (invert_y g = true → ¬ Sorted le r) ∧ (invert_x g = true → ¬ Sorted le c)
  | inl e =>
      (∃ e', floats to_float ys = inl e') ∨ (∃ e', floats to_float xs = inl e') ∨
      ∃ r c, floats to_float ys = inr r ∧ floats to_float xs = inr c ∧
        ((¬ Sorted le r ∧ ¬ Sorted le (reverse r)) ∨
         (¬ Sorted le c ∧ ¬ Sorted le (reverse c)))
  end.
Proof.
  unfold Grid_init.
  destruct (floats to_float ys) as [|r]; [by eauto|].
  destruct (floats to_float xs) as [|c]; [by eauto|].
  unfold Grid_of_floats.
  pose proof (orientation_spec le r "row coordinates are not ordered") as Hy.
  pose proof (orientation_spec le c "column coordinates are not ordered") as Hx.
  destruct (orientation le r _) as [|iy].
  { right. right. exists r, c. destruct Hy as (? & ? & _). eauto. }
  destruct (orientation le c _) as [|ix].
  { right. right. exists r, c. destruct Hx as (? & ? & _). eauto 6. }
  exists r, c. simpl. destruct Hy as (? & ? & ?), Hx as (? & ? & ?). done.
Qed.

Lemma cell_indices_Some (g : Grid) x y i j :
  cell_indices le g x y = Some (i, j) →
  (0 < bisect le (cols g) x < length (cols g)) ∧
  (0 < bisect le (rows g) y < length (rows g)) ∧
  i = (if invert_x g then length (cols g) - bisect le (cols g) x
       else bisect le (cols g) x) ∧
  j = (if invert_y g then length (rows g) - bisect le (rows g) y
       else bisect le (rows g) y).
Proof.
  unfold cell_indices.
  destruct (decide _) as [|Hx]; [done|].
  destruct (decide _) as [|Hy]; [done|].
  intros [= <- <-]. repeat split; lia.
Qed.

Lemma cell_indices_None (g : Grid) x y :
  cell_indices le g x y = None ↔
  ¬ ((0 < bisect le (cols g) x < length (cols g)) ∧
     (0 < bisect le (rows g) y < length (rows g))).
Proof.
  unfold cell_indices.
  destruct (decide _) as [|Hx]; [split; [lia|done]|].
  destruct (decide _) as [|Hy]; [split; [lia|done]|].
  split; [done|]. lia.
Qed.

Lemma within_bisect (a : list T) x :
  StronglySorted le a →
  within le a x ↔ 0 < bisect le a x < length a.
Proof.
  intros Hs. rewrite (bisect_pos le a x Hs), (bisect_lt_length le a x Hs).
  unfold within. split.
  - intros (f & l & ? & ? & ? & ?). split; eauto.
  - intros [(f & ? & ?) (l & ? & ?)]. exists f, l. done.
Qed.

(** X17: a point is in no cell exactly when it is outside the grid on
    some axis: [get_cell_for_point] returns None if and only if x is
    before the first column line or not before the last, or y is so for
    the row lines. *)
Theorem get_cell_for_point_outside (ys xs : list T) g x y :
  Grid_of_floats le ys xs = inr g →
  get_cell_for_point le g x y = inr None ↔
  ¬ (within le (cols g) x ∧ within le (rows g) y).
Proof.
  intros Hg. apply Grid_of_floats_Ok in Hg as (Hr & Hc & _).
  rewrite (within_bisect _ _ Hc), (within_bisect _ _ Hr), <-cell_indices_None.
  unfold get_cell_for_point.
  destruct (cell_indices le g x y) as [c|]; [|done].
  split; [|done]. by destruct (cell_label c).
Qed.

(** X18: the cell a point is given lies between the lines as they were
    configured.  When [get_cell_for_point] finds column i and row j, x is
    between the column lines number i-1 and i of the constructor's
    argument (counting from 0): from the lower to the higher one on an
    axis given in ascending order, the other way round on an inverted
    axis; and y likewise between the row lines j-1 and j. *)
Theorem cell_between_lines (ys xs : list T) g x y i j :
  Grid_of_floats le ys xs = inr g →
  cell_indices le g x y = Some (i, j) →
  (1 ≤ i ∧ ∃ a b, xs !! (i - 1) = Some a ∧ xs !! i = Some b ∧
     if invert_x g then le b x ∧ float_lt le x a else le a x ∧ float_lt le x b) ∧
  (1 ≤ j ∧ ∃ a b, ys !! (j - 1) = Some a ∧ ys !! j = Some b ∧
     if invert_y g then le b y ∧ float_lt le y a else le a y ∧ float_lt le y b).
Proof.
  intros Hg Hc. apply Grid_of_floats_Ok in Hg as (Hr & Hcs & Hrows & Hcols).
  apply cell_indices_Some in Hc as (Hbx & Hby & -> & ->).
  assert (∀ (lines given : list T) (inverted : bool) (z : T),
    StronglySorted le lines →
    lines = (if inverted then reverse given else given) →
    0 < bisect le lines z < length lines →
    let n := if inverted then length lines - bisect le lines z
             else bisect le lines z in
    1 ≤ n ∧ ∃ a b, given !! (n - 1) = Some a ∧ given !! n = Some b ∧
      if inverted then le b z ∧ float_lt le z a else le a z ∧ float_lt le z b)
    as Haxis.
  { intros lines given inverted z Hs Hl Hb.
    destruct (lookup_lt_is_Some_2 lines (bisect le lines z - 1)) as [a Ha]; [lia|].
    destruct (lookup_lt_is_Some_2 lines (bisect le lines z)) as [b Hb']; [lia|].
    assert (bisect le lines z - 1 < bisect le lines z) as Hlt by lia.
    destruct (bisect_spec le lines z Hs) as (_ & Hbelow & Habove).
    assert (le a z) by (by apply (Hbelow _ _ Hlt Ha)).
    assert (float_lt le z b) by (by apply (Habove _ _ (Nat.le_refl _) Hb')).
    clear Hbelow Habove.
    destruct inverted; simpl.
    - split; [lia|]. exists b, a.
      assert (given = reverse lines) as -> by (by rewrite Hl, reverse_involutive).
      rewrite !reverse_lookup by lia. split; [|split; [|done]].
      + rewrite <-Hb'. f_equal. lia.
      + rewrite <-Ha. f_equal. lia.
    - subst given. split; [lia|]. by exists a, b. }
  split.
  - by apply (Haxis (cols g) xs (invert_x g) x).
  - by apply (Haxis (rows g) ys (invert_y g) y).
Qed.

(** X19: the first corner [get_cells_for_bounds] looks up is never in a
    later column or row than the second: for bounds with minx <= maxx and
    miny <= maxy, the swap on an inverted axis keeps the two cells of the
    range in order. *)
Theorem bounds_cells_in_order (ys xs : list T) g minx miny maxx maxy p q i1 j1 i2 j2 :
  Grid_of_floats le ys xs = inr g →
  le minx maxx → le miny maxy →
  corners g (minx, miny, maxx, maxy) = (p, q) →
  cell_indices le g p.1 p.2 = Some (i1, j1) →
  cell_indices le g q.1 q.2 = Some (i2, j2) →
  i1 ≤ i2 ∧ j1 ≤ j2.
Proof.
  intros Hg Hx Hy Hcor Hp Hq. apply Grid_of_floats_Ok in Hg as (Hr & Hc & _).
  apply cell_indices_Some in Hp as (Hp1 & Hp2 & -> & ->).
  apply cell_indices_Some in Hq as (Hq1 & Hq2 & -> & ->).
  pose proof (bisect_mono le (cols g) _ _ Hc Hx) as Hmx.
  pose proof (bisect_mono le (rows g) _ _ Hr Hy) as Hmy.
  unfold corners in Hcor.
  destruct (invert_x g), (invert_y g); injection Hcor as <- <-; simpl in *; lia.
Qed.

End GridProps.

Section GridLabels.
#[local] Open Scope nat_scope.
Context {T : Type} (le : relation T) `{!RelDecision le} `{!EqDecision T}.

Lemma cell_indices_bounds (g : Grid) (x y : T) i j :
  cell_indices le g x y = Some (i, j) → 1 ≤ i < length (cols g) ∧ 1 ≤ j < length (rows g).
Proof.
  unfold cell_indices.
  destruct (decide _) as [|Hx]; [done|].
  destruct (decide _) as [|Hy]; [done|].
  intros [= <- <-]. destruct (invert_x g), (invert_y g); lia.
Qed.

(** X20: with at most 27 column lines every cell has a letter:
    [get_cell_for_point] raises nothing, and a point inside the grid is
    given the letter of its column followed by the number of its row. *)
Theorem get_cell_for_point_letter (g : Grid) (x y : T) :
  length (cols g) ≤ 27 →
  match cell_indices le g x y with
  | None => get_cell_for_point le g x y = inr None
  | Some (i, j) =>
      ∃ letter, ascii_uppercase !! (i - 1) = Some letter ∧
        get_cell_for_point le g x y = inr (Some (letter +:+ str (Z.of_nat j)))
  end.
Proof.
  intros Hlen. unfold get_cell_for_point.
  destruct (cell_indices le g x y) as [[i j]|] eqn:Hc; [|done].
  apply cell_indices_bounds in Hc as [Hi _].
  destruct (lookup_lt_is_Some_2 ascii_uppercase (i - 1)) as [l Hl]; [simpl; lia|].
  exists l. split; [done|]. unfold cell_label. simpl. by rewrite Hl.
Qed.

Lemma cell_label_nonempty c s : cell_label c = inr s → s ≠ "".
Proof.
  unfold cell_label. destruct (ascii_uppercase !! (c.1 - 1)) as [l|] eqn:Hl; [|done].
  intros [= <-]. apply list_elem_of_lookup_2 in Hl.
  unfold ascii_uppercase in Hl.
  repeat (apply elem_of_cons in Hl as [->|Hl]; [done|]).
  by apply elem_of_nil in Hl.
Qed.

(** X21: bounds that are a single point give the cell of that point:
    [get_cells_for_bounds] of (x, y, x, y) is [get_cell_for_point] of
    (x, y), whether that is a cell, None or the IndexError. *)
Theorem get_cells_for_point_bounds (g : Grid) (x y : T) :
  get_cells_for_bounds le g (x, y, x, y) = get_cell_for_point le g x y.
Proof.
  unfold get_cells_for_bounds, corners.
  assert ((let '(minx, maxx) := if invert_x g then (x, x) else (x, x) in
           let '(miny, maxy) := if invert_y g then (y, y) else (y, y) in
           (minx, miny, (maxx, maxy))) = ((x, y), (x, y))) as ->.
  { by destruct (invert_x g), (invert_y g). }
  unfold get_cell_for_point.
  destruct (cell_indices le g x y) as [c|]; [|done].
  destruct (cell_label c) as [e|s] eqn:Hs; [done|].
  apply cell_label_nonempty in Hs. simpl.
  rewrite bool_decide_eq_false_2 by done. simpl. by rewrite decide_True.
Qed.

End GridLabels.

(** * Properties of migration mapdata 0024 *)

Lemma next_category_pk_above t c :
  c ∈ t → lgc_pk c < next_category_pk t.
Proof.
  unfold next_category_pk. induction t as [|c' t IH]; intros Hc.
  - by apply elem_of_nil in Hc.
  - simpl. apply elem_of_cons in Hc as [<-|Hc]; [lia|].
    specialize (IH Hc). lia.
Qed.

(** X22: the data migration adds exactly two categories, compiled_room
    with priority 1 and then compiled_area with priority 2, under two
    different pks no category had; it keeps every group and its flags;
    and it gives a group the compiled_area category when its compiled_area
    flag is set, whatever its other flag, the compiled_room category when
    only compiled_room is set, and leaves its category alone otherwise. *)
Theorem migration_0024_categories db :
  ∃ room area,
    location_group_categories (convert_compiled_room_area_to_location_group_category db)
      = location_group_categories db ++ [room; area] ∧
    lgc_name room = "compiled_room" ∧ lgc_priority room = 1 ∧
    lgc_name area = "compiled_area" ∧ lgc_priority area = 2 ∧
    lgc_pk room ≠ lgc_pk area ∧
    (∀ c, c ∈ location_group_categories db →
          lgc_pk c ≠ lgc_pk room ∧ lgc_pk c ≠ lgc_pk area) ∧
    location_groups (convert_compiled_room_area_to_location_group_category db)
      = (λ g, {| lg_pk := lg_pk g; compiled_room := compiled_room g;
                 compiled_area := compiled_area g;
                 category :=
                   if compiled_area g then Some (lgc_pk area)
                   else if compiled_room g then Some (lgc_pk room)
                   else category g |}) <$> location_groups db.
Proof.
  unfold convert_compiled_room_area_to_location_group_category,
    create_category, update_category; simpl.
  eexists _, _. split; [by rewrite <-app_assoc|]. simpl.
  split; [done|]. split; [done|]. split; [done|]. split; [done|].
  assert (next_category_pk (location_group_categories db) <
          next_category_pk
            (location_group_categories db ++
               [{| lgc_pk := next_category_pk (location_group_categories db);
                   lgc_name := "compiled_room";
                   lgc_titles := [("en", "Compiled room"); ("de", "Zusammengefügter Raum")];
                   lgc_single := true; lgc_allow_levels := false;
                   lgc_allow_spaces := true; lgc_allow_areas := true;
                   lgc_allow_pois := false; lgc_priority := 1 |}])) as Hlt.
  { apply (next_category_pk_above _
             {| lgc_pk := next_category_pk (location_group_categories db);
                lgc_name := "compiled_room";
                lgc_titles := [("en", "Compiled room"); ("de", "Zusammengefügter Raum")];
                lgc_single := true; lgc_allow_levels := false;
                lgc_allow_spaces := true; lgc_allow_areas := true;
                lgc_allow_pois := false; lgc_priority := 1 |}).
    apply elem_of_app. right. by left. }
  split; [lia|]. split.
  - intros c Hc. pose proof (next_category_pk_above _ _ Hc). lia.
  - rewrite <-list_fmap_compose. apply list_fmap_ext. intros _ g _. simpl.
    destruct g as [k r a c]; simpl. by destruct a, r.
Qed.

(** * The properties on the concrete site *)

Import Demo.

(** ** Folding *)

Lemma delchange_leaves_projection_witness :
  (∀ w0, _parse_change void_set_level_1 w0 = Ok tt w0) ∧
  ∃ w', parse_changes (world row3 [set_level_1; void_set_level_1]) = Ok tt w' ∧
        get_value (updated_values (changeset w')) (Some Area) (Some (inl 42))
          (Some "level") = Some "1".
Proof.
  apply (delchange_leaves_projection (H:=lib) set_level_1 void_set_level_1
           (Some Area) (Some (inl 42)) "1"
           (world row3 [set_level_1; void_set_level_1])); reflexivity.
Defined.

(** The log of C1, an update and the delete-change that voids it: the
    field is still in the projection, with the voided value. *)
Lemma voided_update_is_still_projected :
  is_Ok (parse_changes (world row3 [set_level_1; void_set_level_1])) = true ∧
  lookup_value
    (changeset (final (parse_changes (world row3 [set_level_1; void_set_level_1]))))
    Area (inl 42) "level" = Some "1".
Proof. split; reflexivity. Qed.

Lemma m2m_changes_are_not_folded_witness :
  _parse_change add_group (world row3 []) = Ok tt (world row3 []).
Proof. apply (m2m_changes_are_not_folded (H:=lib) add_group). left. reflexivity. Defined.

(** Through [add_m2m_add] nothing reaches [updated_values]; the same call
    through [add_update] does. *)
Lemma m2m_add_is_not_projected :
  is_Ok (add_m2m_add 20 (VWrapper area42) "groups" "[5]" None (world row3 [])) = true ∧
  lookup_value
    (changeset (final (add_m2m_add 20 (VWrapper area42) "groups" "[5]" None
                         (world row3 []))))
    Area (inl 42) "groups" = None ∧
  lookup_value
    (changeset (final (add_update 20 (VWrapper area42) "groups" "[5]" None
                         (world row3 []))))
    Area (inl 42) "groups" = Some "[5]".
Proof. repeat split; reflexivity. Qed.


Lemma parse_changes_idempotent_witness :
  parse_changes
    (final (parse_changes (world row3 [set_level_1; set_level_2; delete_area])))
  = Ok tt (final (parse_changes (world row3 [set_level_1; set_level_2; delete_area]))).
Proof.
  apply (parse_changes_idempotent (H:=lib) (world row3 [set_level_1; set_level_2; delete_area])).
  reflexivity.
Defined.

(** ** Target identity of a pending creation *)

(** C2: the identity [add_create] gives a pending creation is 'c' followed
    by the id of the creating Change, and a later Change that targets the
    creation should report that identity as its [obj_pk].  Here ChangeSet #3
    creates a POI with Change #7 and sets its level with Change #8.  The
    POI is given 'c7', and Change #8 reports 'c7' as long as it holds the
    target it was given; read back from the log, the same Change #8 reports
    'c3', the id of the ChangeSet, because [obj_pk] reads [changeset_id] of
    the creating Change where its id is meant. *)
Theorem pending_identity_after_reload :
  (returned created_poi ≫= w_pk) = Some (inr "c7") ∧
  (pk <$> returned updated_poi) = Some (Some 8) ∧
  (obj_pk <$> returned updated_poi) = Some (inr (Some (inr "c7"))) ∧
  (pk <$> last (changes_all (final updated_poi))) = Some (Some 8) ∧
  (obj_pk <$> last (changes_all (final updated_poi))) = Some (inr (Some (inr "c3"))).
Proof. repeat split; reflexivity. Qed.

(** ** Saving and validating *)

Lemma save_to_uneditable_changeset_witness :
  ∃ e w', save 30 (with_this valid_update (world proposed3 [])) = Raise e w' ∧
    db_changes w' = db_changes (with_this valid_update (world proposed3 [])) ∧
    (is_Ok (clean (with_this valid_update (world proposed3 []))) = true →
     pk (this (with_this valid_update (world proposed3 []))) = None →
     e = TypeError "can not add change object to uneditable changeset.").
Proof.
  apply (save_to_uneditable_changeset (H:=lib) 30
           (with_this valid_update (world proposed3 []))).
  left. discriminate.
Defined.

(** One valid Change per action: each passes [clean], is saved to the open
    ChangeSet, and fails with the state error on the proposed and on the
    applied one. *)
Lemma state_error_for_every_action :
  action <$> valid_changes = ACTIONS ∧
  Forall (λ c,
    is_Ok (save 30 (with_this c (world row3 [set_level_1]))) = true ∧
    raised (save 30 (with_this c (world proposed3 [set_level_1])))
      = Some (TypeError "can not add change object to uneditable changeset.") ∧
    raised (save 30 (with_this c (world applied3 [set_level_1])))
      = Some (TypeError "can not add change object to uneditable changeset."))
    valid_changes.
Proof. split; [reflexivity|]. repeat constructor. Qed.

(** Saving an invalid Change to a proposed ChangeSet fails with the
    ValidationError of [clean], not with the state error. *)
Lemma invalid_change_fails_validation_first :
  raised (save 30 (with_this create_with_field (world proposed3 [])))
  = Some (ValidationError "field_name must not be set if action is create or delete.").
Proof. reflexivity. Qed.

Lemma clean_rejects_witness :
  ∃ e w', clean (with_this create_with_field (world row3 [])) = Raise e w' ∧
    ((∃ msg, e = ValidationError msg) ∨
     (create_or_delete_with_field (this (with_this create_with_field (world row3 []))) ∧
      ∃ w0, resolve_target (with_this create_with_field (world row3 [])) = Raise e w0 ∧
            clean_handler e = None)).
Proof.
  apply (clean_rejects (H:=lib) (with_this create_with_field (world row3 []))).
  right. right. split.
  - left. reflexivity.
  - left. discriminate.
Defined.

(** An update with neither field name nor field value passes [clean]; and
    a delete with a field name set whose target is a pending creation leaves
    [clean] with the NotImplementedError of [obj], not a ValidationError. *)
Lemma update_without_field_is_accepted :
  action (unsaved "update" (Some "Area") (Some 42) None None) = "update" ∧
  field_name (unsaved "update" (Some "Area") (Some 42) None None) = None ∧
  field_value (unsaved "update" (Some "Area") (Some 42) None None) = None ∧
  is_Ok (clean (with_this (unsaved "update" (Some "Area") (Some 42) None None)
                  (world row3 []))) = true ∧
  raised (clean (with_this delete_pending_with_field
                   (world row3 [create_row 1 3 10 "Area"])))
  = Some NotImplementedError.
Proof. repeat split; reflexivity. Qed.

Lemma clean_missing_object_witness :
  clean (with_this update_of_missing (world row3 []))
  = Raise (ValidationError "existing object does not exist.")
      (with_this update_of_missing (world row3 [])).
Proof.
  apply (clean_missing_object (H:=lib) (with_this update_of_missing (world row3 []))
           "Area" Area 43); try reflexivity; discriminate.
Defined.

(** The missing record surfaces as a ValidationError, and as nothing
    else. *)
Lemma missing_object_is_a_validation_error :
  raised (clean (with_this update_of_missing (world row3 [])))
  = Some (ValidationError "existing object does not exist.") ∧
  raised (clean (with_this update_of_missing (world row3 []))) ≠ Some ObjectDoesNotExist.
Proof. split; [reflexivity|discriminate]. Qed.

Lemma obj_setter_sets_exactly_one_witness :
  (∃ t, _set_object (this (final (set_obj (VWrapper area42) (world row3 [])))) = Some t ∧
     ((∃ k, w_pk t = Some (inl k) ∧
            existing_object_pk (this (final (set_obj (VWrapper area42) (world row3 []))))
              = Some k ∧
            created_object (this (final (set_obj (VWrapper area42) (world row3 []))))
              = None) ∨
      (∃ s co, w_pk t = Some (inr s) ∧
            created_object (this (final (set_obj (VWrapper area42) (world row3 []))))
              = Some co ∧
            existing_object_pk (this (final (set_obj (VWrapper area42) (world row3 []))))
              = None)))
  ∧ (∀ w0 k co,
       _set_object (this w0) = None →
       existing_object_pk (this w0) = Some k → created_object (this w0) = Some co →
       ∃ msg, obj w0 = Raise (TypeError msg) w0).
Proof.
  apply (obj_setter_sets_exactly_one (H:=lib) (VWrapper area42) (world row3 [])).
  reflexivity.
Defined.

(** A Change with both references set whose target is cached: reading
    [obj] returns the cached target. *)
Lemma obj_with_both_set_returns_cached :
  existing_object_pk both_set = Some 42 ∧
  created_object both_set = Some (create_row 1 3 10 "Area") ∧
  returned (obj (with_this both_set (world row3 [create_row 1 3 10 "Area"])))
  = Some area42.
Proof. repeat split; reflexivity. Qed.

(** ** Resolving the ChangeSet of a request *)

Lemma get_for_request_resumes_witness :
  match get_for_request 200 (AuthUser 1) site with
  | (Resumed, cs, st') =>
      row cs ∈ resumable 1 site ∧ applied cs = None ∧
      (∀ r, r ∈ resumable 1 site → created_ge cs r) ∧
      session_changeset_pk st' = cs_pk cs
  | (Fresh, cs, st') =>
      resumable 1 site = [] ∧ proposed cs = None ∧ applied cs = None ∧
      db_changesets st' = db_changesets site ++ [row cs]
  | (FromSession, _, _) => False
  end.
Proof. apply (get_for_request_resumes (H:=lib) 200 1 site). reflexivity. Defined.

(** The only unapplied ChangeSet of user 1 has been proposed, and it is
    the one resumed. *)
Lemma proposed_changeset_is_resumed :
  (get_for_request 200 (AuthUser 1) site).1.1 = Resumed ∧
  proposed (get_for_request 200 (AuthUser 1) site).1.2 = Some 150 ∧
  applied (get_for_request 200 (AuthUser 1) site).1.2 = None.
Proof. repeat split; reflexivity. Qed.

(** * The further properties on the concrete site *)

Import Demo2.

(** ** The editor models *)

Lemma save_persists_witness :
  (pk (this opened) = None ∧ proposed (changeset opened) = None ∧
   applied (changeset opened) = None) ∧
  db_changes saved = db_changes opened ++ [this saved] ∧
  (∃ n, pk (this saved) = Some n ∧ ∀ c, c ∈ db_changes opened → pk c ≠ Some n) ∧
  created (this saved) = Some 30 ∧
  (changeset_id (this saved) = changeset_id (this opened) ∧
   author (this saved) = author (this opened) ∧
   action (this saved) = action (this opened) ∧
   deletes_change (this saved) = deletes_change (this opened) ∧
   model_name (this saved) = model_name (this opened) ∧
   existing_object_pk (this saved) = existing_object_pk (this opened) ∧
   created_object (this saved) = created_object (this opened) ∧
   field_name (this saved) = field_name (this opened) ∧
   field_value (this saved) = field_value (this opened)).
Proof. apply (save_persists (H:=lib) 30 opened saved). reflexivity. Defined.

Lemma persisted_change_is_immutable_witness :
  (∃ e w', save 30 persisted = Raise e w' ∧ db_changes w' = db_changes persisted ∧
     (is_Ok (clean persisted) = true →
      e = TypeError "change objects can not be edited.")) ∧
  delete persisted = Raise (TypeError "change objects can not be deleted directly.")
                       persisted.
Proof. apply (persisted_change_is_immutable (H:=lib) 30 persisted). discriminate. Defined.

Lemma clean_accepts_witness :
  (action (this opened) = "delchange" ∧
   (∃ d, deletes_change (this opened) = Some d ∧
         changeset_id d = changeset_id (this opened)) ∧
   model_name (this opened) = None ∧ existing_object_pk (this opened) = None ∧
   created_object (this opened) = None ∧ field_name (this opened) = None ∧
   field_value (this opened) = None ∧ cleaned = opened)
  ∨
  (action (this opened) ≠ "delchange" ∧ deletes_change (this opened) = None ∧
   model_name (this opened) ≠ None ∧
   (action (this opened) = "create" ∨ action (this opened) = "delete" →
    field_name (this opened) = None ∧ field_value (this opened) = None) ∧
   (action (this opened) ≠ "create" → is_Some (_set_object (this cleaned)))).
Proof. apply (clean_accepts (H:=lib) opened cleaned). reflexivity. Defined.

Lemma obj_setter_getter_witness :
  ∃ t, obj targeted = Ok t targeted ∧ obj_pk (this targeted) = inr (w_pk t) ∧
       is_Some (w_pk t) ∧ t = area42.
Proof.
  apply (obj_setter_getter (H:=lib) (VWrapper area42) (world row3 []) targeted).
  reflexivity.
Defined.

Lemma obj_of_pending_creation_witness :
  ∃ e, obj pending = Raise e pending ∧
    (e = LookupError ∨ (∃ msg, e = TypeError msg) ∨
     (e = NotImplementedError ∧
      model_class (create_row 1 3 10 "Area") = model_class (this pending) ∧
      changeset_id (create_row 1 3 10 "Area") = changeset_id (this pending))).
Proof. apply (obj_of_pending_creation (H:=lib) pending); reflexivity. Defined.

Lemma obj_of_persisted_witness :
  ∃ k m, existing_object_pk (this opened) = Some k ∧
    created_object (this opened) = None ∧
    model_class (this opened) = inr (Some m) ∧ (m, k) ∈ store opened ∧
    _obj area42 = {| inst_class := m; inst_pk := Some k |} ∧
    w_pk area42 = Some (inl k) ∧
    _changeset_id area42 = cs_pk (changeset opened) ∧
    obj (final (obj opened)) = Ok area42 (final (obj opened)) ∧
    obj_pk (this (final (obj opened))) = inr (Some (inl k)).
Proof.
  apply (obj_of_persisted (H:=lib) opened area42 (final (obj opened))); reflexivity.
Defined.

Lemma add_create_identity_witness :
  ∃ c n, db_changes (final created_poi) = db_changes (world row3 six_changes) ++ [c] ∧
    pk c = Some n ∧
    set_w_pk (Some (inr "c7")) new_poi = set_w_pk (Some (inr ("c" +:+ str n))) new_poi ∧
    action c = "create" ∧
    model_name c = Some (__name__ (inst_class (_obj new_poi))) ∧
    changeset_id c = cs_pk (changeset (world row3 six_changes)) ∧
    existing_object_pk c = None ∧ created_object c = None ∧
    field_name c = None ∧ field_value c = None.
Proof.
  apply (add_create_identity (H:=lib) 20 new_poi None (world row3 six_changes)
           (set_w_pk (Some (inr "c7")) new_poi) (final created_poi)).
  reflexivity.
Defined.

Lemma add_update_read_your_write_witness :
  db_changes after_update
    = db_changes (world row3 []) ++ [this after_update] ∧
  action (this after_update) = "update" ∧
  field_name (this after_update) = Some "level" ∧
  field_value (this after_update) = Some (json_dumps ("1" : JSON)) ∧
  obj_pk (this after_update) = inr (w_pk area42) ∧
  ∃ mc v, model_class (this after_update) = inr mc ∧
    json_loads (json_dumps ("1" : JSON)) = Some v ∧
    get_value (updated_values (changeset after_update)) mc (w_pk area42)
      (Some "level") = Some v.
Proof.
  apply (add_update_read_your_write (H:=lib) 21 area42 "level" "1" None (world row3 [])
           (this after_update) after_update).
  reflexivity.
Defined.

Lemma add_delete_marks_deleted_witness :
  db_changes after_delete
    = db_changes (world row3 []) ++ [this after_delete] ∧
  action (this after_delete) = "delete" ∧
  existing_object_pk (this after_delete) = Some 42 ∧
  created_object (this after_delete) = None ∧
  ∃ mc, model_class (this after_delete) = inr mc ∧
        42 ∈ default ∅ (deleted_existing (changeset after_delete) !! mc).
Proof.
  apply (add_delete_marks_deleted (H:=lib) 22 area42 None (world row3 [])
           (this after_delete) after_delete 42).
  - reflexivity.
  - reflexivity.
Defined.

Lemma new_change_attribution_witness :
  author (this after_create_by_5) = user_id (AuthUser 5).
Proof.
  apply (new_change_attribution (H:=lib) 23 (Some (AuthUser 5))
           [a_action "create"; a_model_class (Some Area)] (world row3 [])
           (this after_create_by_5) after_create_by_5).
  reflexivity.
Defined.

Lemma wrap_returns_witness :
  _obj area42 = {| inst_class := Area; inst_pk := Some 42 |} ∧
  w_pk area42 = int_pk (Some 42) ∧
  w_author area42 = wrapper_author (Some AnonymousUser) (world row3 []) ∧
  _changeset_id area42 = cs_pk (changeset (world row3 [])).
Proof.
  apply (wrap_returns (H:=lib) (PInstance {| inst_class := Area; inst_pk := Some 42 |})
           (Some AnonymousUser) (world row3 []) (WInstance area42)
           (final (wrap (PInstance {| inst_class := Area; inst_pk := Some 42 |})
                     (Some AnonymousUser) (world row3 [])))).
  reflexivity.
Defined.

Lemma parse_changes_only_grows_witness :
  (∀ mc k f, is_Some (get_value (updated_values (changeset parsed_once)) mc k f) →
             is_Some (get_value (updated_values
                                   (changeset (final (parse_changes parsed_once))))
                        mc k f)) ∧
  (∀ mc k, k ∈ default ∅ (deleted_existing (changeset parsed_once) !! mc) →
           k ∈ default ∅ (deleted_existing
                            (changeset (final (parse_changes parsed_once))) !! mc)).
Proof.
  apply (parse_changes_only_grows (H:=lib) parsed_once (final (parse_changes parsed_once))).
  reflexivity.
Defined.

Lemma parse_changes_marks_deleted_witness :
  ∃ mc, model_class delete_area = inr mc ∧
        42 ∈ default ∅ (deleted_existing (changeset parsed_once) !! mc).
Proof.
  apply (parse_changes_marks_deleted (H:=lib) logged parsed_once delete_area 42);
    try reflexivity.
  vm_compute. right. right. left.
Defined.

Lemma get_for_request_returns_witness :
  applied resolved.1.2 = None ∧ cs_author resolved.1.2 = user_id (AuthUser 1) ∧
  default_author resolved.1.2 = Some (AuthUser 1) ∧
  session_changeset_pk resolved.2 = cs_pk resolved.1.2 ∧
  row resolved.1.2 ∈ db_changesets resolved.2 ∧
  (AuthUser 1 = AnonymousUser → resolved.1.1 ≠ Resumed).
Proof.
  apply (get_for_request_returns (H:=lib) 200 (AuthUser 1) site
           resolved.1.1 resolved.1.2 resolved.2).
  reflexivity.
Defined.

Lemma get_for_request_again_witness :
  ∃ cs2 st2, get_for_request 300 (AuthUser 1) resolved.2 = (FromSession, cs2, st2) ∧
             cs_pk cs2 = cs_pk resolved.1.2.
Proof.
  apply (get_for_request_again (H:=lib) 200 300 (AuthUser 1) site
           resolved.1.1 resolved.1.2 resolved.2).
  - intros r Hr. repeat (apply elem_of_cons in Hr as [->|Hr]; [by eexists|]).
    by apply elem_of_nil in Hr.
  - reflexivity.
Defined.

(** ** The grid, with integer coordinates *)

Lemma Grid_init_accepts_witness :
  match Grid_init Z.le parse_int grid_rows grid_cols with
  | inr g =>
      ∃ r c, floats parse_int grid_rows = inr r ∧ floats parse_int grid_cols = inr c ∧
        Sorted Z.le (rows g) ∧ Sorted Z.le (cols g) ∧
        rows g = (if invert_y g then reverse r else r) ∧
        cols g = (if invert_x g then reverse c else c) ∧
        (invert_y g = true → ¬ Sorted Z.le r) ∧ (invert_x g = true → ¬ Sorted Z.le c)
  | inl e =>
      (∃ e', floats parse_int grid_rows = inl e') ∨
      (∃ e', floats parse_int grid_cols = inl e') ∨
      ∃ r c, floats parse_int grid_rows = inr r ∧ floats parse_int grid_cols = inr c ∧
        ((¬ Sorted Z.le r ∧ ¬ Sorted Z.le (reverse r)) ∨
         (¬ Sorted Z.le c ∧ ¬ Sorted Z.le (reverse c)))
  end.
Proof. apply (Grid_init_accepts Z.le parse_int grid_rows grid_cols). Defined.

Lemma get_cell_for_point_outside_witness :
  get_cell_for_point Z.le demo_grid 7 3 = inr None ↔
  ¬ (within Z.le (cols demo_grid) 7 ∧ within Z.le (rows demo_grid) 3).
Proof.
  apply (get_cell_for_point_outside Z.le [0; 10; 20] [15; 10; 5; 0] demo_grid 7 3).
  reflexivity.
Defined.

Lemma cell_between_lines_witness :
  ((1 ≤ 2)%nat ∧ ∃ a b, [15; 10; 5; 0] !! (2 - 1)%nat = Some a ∧
     [15; 10; 5; 0] !! 2%nat = Some b ∧
     if invert_x demo_grid then b ≤ 7 ∧ float_lt Z.le 7 a
     else a ≤ 7 ∧ float_lt Z.le 7 b) ∧
  ((1 ≤ 1)%nat ∧ ∃ a b, [0; 10; 20] !! (1 - 1)%nat = Some a ∧
     [0; 10; 20] !! 1%nat = Some b ∧
     if invert_y demo_grid then b ≤ 3 ∧ float_lt Z.le 3 a
     else a ≤ 3 ∧ float_lt Z.le 3 b).
Proof.
  apply (cell_between_lines Z.le [0; 10; 20] [15; 10; 5; 0] demo_grid 7 3 2%nat 1%nat);
    reflexivity.
Defined.

Lemma bounds_cells_in_order_witness : (1 ≤ 3)%nat ∧ (1 ≤ 2)%nat.
Proof.
  apply (bounds_cells_in_order Z.le [0; 10; 20] [15; 10; 5; 0] demo_grid
           1 1 14 19 (14, 1) (1, 19) 1%nat 1%nat 3%nat 2%nat); try reflexivity; lia.
Defined.

Lemma get_cell_for_point_letter_witness :
  match cell_indices Z.le demo_grid 7 3 with
  | None => get_cell_for_point Z.le demo_grid 7 3 = inr None
  | Some (i, j) =>
      ∃ letter, ascii_uppercase !! (i - 1)%nat = Some letter ∧
        get_cell_for_point Z.le demo_grid 7 3 = inr (Some (letter +:+ str (Z.of_nat j)))
  end.
Proof.
  apply (get_cell_for_point_letter Z.le demo_grid 7 3). simpl. lia.
Defined.
